(** * GeoJSONWorkerSource: a shallow embedding of
      src/source/geojson_worker_source.ts and the properties of its
      load coordinator, tile extractor and cluster-property wiring. *)

From Stdlib Require Import ZArith String List Bool Lia.
From stdpp Require Import base option list strings gmap.

Open Scope string_scope.
Set Warnings "-register-all".

(** ** JavaScript values *)

(** The values that flow through the worker: what [JSON.parse] and the
    transport deliver, feature property bags, expression results.  Numbers
    are kept to the integers plus [NaN], which is all that truthiness and
    [typeof] look at.  An object is its list of own properties in
    enumeration order. *)
Inductive JSValue : Type :=
| JUndefined
| JNull
| JBool (b : bool)
| JNum (n : Z)
| JNaN
| JStr (s : string)
| JArr (items : list JSValue)
| JObj (fields : list (string * JSValue)).

Module JS.

(** [!v] is [negb (truthy v)]. *)
Definition truthy (v : JSValue) : bool :=
  match v with
  | JUndefined | JNull | JNaN => false
  | JBool b => b
  | JNum n => negb (n =? 0)%Z
  | JStr s => negb (String.eqb s "")
  | JArr _ | JObj _ => true
  end.

(** [typeof v]. *)
Definition typeof (v : JSValue) : string :=
  match v with
  | JUndefined => "undefined"
  | JNull | JArr _ | JObj _ => "object"
  | JBool _ => "boolean"
  | JNum _ | JNaN => "number"
  | JStr _ => "string"
  end.

(** [v == null], true of [null] and [undefined] only. *)
Definition nullish (v : JSValue) : bool :=
  match v with
  | JUndefined | JNull => true
  | _ => false
  end.

(** Own-property lookup in a property list. *)
Fixpoint lookup_field (fs : list (string * JSValue)) (k : string) : option JSValue :=
  match fs with
  | [] => None
  | (k', v) :: rest => if String.eqb k' k then Some v else lookup_field rest k
  end.

(** [o[k] = v] on a property list: an existing key keeps its place, a
    new key goes last. *)
Fixpoint set_field (fs : list (string * JSValue)) (k : string) (v : JSValue)
  : list (string * JSValue) :=
  match fs with
  | [] => [(k, v)]
  | (k', v') :: rest =>
      if String.eqb k' k then (k', v) :: rest else (k', v') :: set_field rest k v
  end.

(** [v.k] on a non-nullish value: [undefined] when there is no such own
    property (arrays and primitives have none of the names used here). *)
Definition get (v : JSValue) (k : string) : JSValue :=
  match v with
  | JObj fs => default JUndefined (lookup_field fs k)
  | _ => JUndefined
  end.

(** [Array.prototype.join] on strings. *)
Definition join (sep : string) (parts : list string) : string :=
  String.concat sep parts.

(** A string interpolated in a template literal; a missing one prints as
    the word undefined. *)
Definition interpolate (s : option string) : string :=
  default "undefined" s.

End JS.

(** Thrown values: an error object with its constructor's name and its
    message. *)
Record JSError : Type := mkError { name : string; message : string }.

Definition Error (msg : string) : JSError := mkError "Error" msg.
Definition TypeError (msg : string) : JSError := mkError "TypeError" msg.

(** A computation that returns or throws. *)
Inductive Completion (A : Type) : Type :=
| Return (a : A)
| Throw (e : JSError).
Arguments Return {A} a.
Arguments Throw {A} e.

(** ** Typed arrays *)

(** An [ArrayBuffer] is its bytes; a [Uint8Array] is a window on one. *)
Record Uint8Array : Type := mkUint8Array {
  buffer : list Byte.byte;
  byteOffset : nat;
  byteLength : nat
}.

(** The bytes seen through the view, element by element. *)
Definition view_bytes (a : Uint8Array) : list Byte.byte :=
  (fun i => nth (byteOffset a + i) (buffer a) Byte.x00) <$> seq 0 (byteLength a).

(** [new Uint8Array(a)]: a fresh buffer holding a copy of the elements of
    [a], viewed from its start. *)
Definition Uint8Array_from (a : Uint8Array) : Uint8Array :=
  mkUint8Array (view_bytes a) 0 (byteLength a).

(** ** The expression evaluator's interface *)

(** The property specification handed to [createExpression] with a filter. *)
Record PropertySpec : Type := mkPropertySpec {
  spec_type : string;
  property_type : string;
  overridable : bool;
  transition : bool
}.

(** One entry of the compiler's error list. *)
Record ParsingError : Type := mkParsingError { key : string; err_message : string }.

(** The evaluation context: [{accumulated, zoom}]. *)
Record Globals : Type := mkGlobals { accumulated : JSValue; zoom : Z }.

(** ** The updateable feature store *)

(** [Map<GeoJSONFeatureId, GeoJSON.Feature>]: entries in insertion order,
    which is the order [values()] yields them in. *)
Definition Store : Type := list (JSValue * JSValue).

(** Key equality of a [Map] (SameValueZero).  Composite values are
    references, and two of them met here are never the same object. *)
Definition sameValueZero (a b : JSValue) : bool :=
  match a, b with
  | JUndefined, JUndefined | JNull, JNull | JNaN, JNaN => true
  | JBool x, JBool y => Bool.eqb x y
  | JNum x, JNum y => (x =? y)%Z
  | JStr x, JStr y => String.eqb x y
  | _, _ => false
  end.

(** [store.set(id, f)]. *)
Fixpoint store_set (st : Store) (id f : JSValue) : Store :=
  match st with
  | [] => [(id, f)]
  | (id', f') :: rest =>
      if sameValueZero id' id then (id', f) :: rest else (id', f') :: store_set rest id f
  end.

(** [Array.from(store.values())]. *)
Definition store_values (st : Store) : list JSValue := snd <$> st.

(** The [features] array of a collection, when the value has one. *)
Definition features_of (data : JSValue) : option (list JSValue) :=
  match JS.get data "features" with
  | JArr fs => Some fs
  | _ => None
  end.

(** [{type: 'FeatureCollection', features}]. *)
Definition FeatureCollection (features : list JSValue) : JSValue :=
  JObj [("type", JStr "FeatureCollection"); ("features", JArr features)].

(** Modelled from the spec: [getFeatureId] of geojson_source_diff.ts is not
    among the sources.  The identifier of a feature is "either the index's
    native feature id or a value read from a configurable property name
    (promoteId)". *)
Definition getFeatureId (feature : JSValue) (promoteId : option string) : JSValue :=
  match promoteId with
  | Some p => JS.get (JS.get feature "properties") p
  | None => JS.get feature "id"
  end.

(** Modelled from the spec: [isUpdateableGeoJSON] of geojson_source_diff.ts
    is not among the sources.  A collection is updateable when its
    "features all resolve non-null identifiers under the promotion rule";
    a value that is no collection is not. *)
Definition isUpdateableGeoJSON (data : JSValue) (promoteId : option string) : bool :=
  match features_of data with
  | Some fs => forallb (fun f => negb (JS.nullish (getFeatureId f promoteId))) fs
  | None => false
  end.

(** Modelled from the spec: [toUpdateable] of geojson_source_diff.ts is not
    among the sources.  It "rebuild[s] the store from" the features, each
    under its identifier. *)
Definition toUpdateable (data : JSValue) (promoteId : option string) : Store :=
  fold_left (fun st f => store_set st (getFeatureId f promoteId) f)
            (default [] (features_of data)) [].

(** ** Collaborators *)

(** [RequestParameters] of util/ajax, with the one field this file reads. *)
Record RequestParameters : Type := mkRequest {
  url : string;
  collectResourceTiming : bool
}.

(** [{result: 'success' | 'error', value}] as [createExpression] returns it. *)
Inductive CompileResult (C : Type) : Type :=
| Success (value : C)
| Failure (value : list ParsingError).
Arguments Success {C} value.
Arguments Failure {C} value.

(** The two objects the cluster callbacks close over and write to:
    [globals] and [feature]. *)
Record ClosureEnv : Type := mkEnv {
  globals : Globals;
  feature_properties : JSValue
}.

(** [{properties}], the one-feature context of the callbacks. *)
Definition feature_of (env : ClosureEnv) : JSValue :=
  JObj [("properties", feature_properties env)].

Definition MapCallback : Type :=
  JSValue -> ClosureEnv -> Completion (list (string * JSValue)) * ClosureEnv.

(** [reduce] writes to its first argument; the object after the call is
    returned next to the completion. *)
Definition ReduceCallback : Type :=
  list (string * JSValue) -> JSValue -> ClosureEnv ->
  Completion unit * list (string * JSValue) * ClosureEnv.

(** Supercluster's options: what this file passes through untouched, and
    the two callbacks it installs. *)
Record SuperclusterOptions (Base : Type) : Type := mkSuperclusterOptions {
  passthrough : Base;
  map : option MapCallback;
  reduce : option ReduceCallback
}.
Arguments mkSuperclusterOptions {Base} _ _ _.
Arguments passthrough {Base} _.
Arguments map {Base} _.
Arguments reduce {Base} _.

(** [new GeoJSONWrapper(features)] of geojson_wrapper.ts: the adapter the
    encoder reads the tile's features through. *)
Record GeoJSONWrapper : Type := mkGeoJSONWrapper { wrapped_features : JSValue }.

(** Everything imported by the file and not defined in it, as the file
    uses it.  The transport ([getJSON]) is not here: its answers arrive as
    events of the worker's event loop, below. *)
Class Collaborators : Type := {
  (** @maplibre/maplibre-gl-style-spec *)
  Compiled : Type;
  createExpression : JSValue -> option PropertySpec -> CompileResult Compiled;
  evaluate : Compiled -> Globals -> JSValue -> JSValue;
  (** [JSON.parse]; [None] when it throws *)
  JSON_parse : string -> option JSValue;
  (** @mapbox/geojson-rewind, [rewind(data, true)] *)
  rewind : JSValue -> JSValue;
  (** geojson-vt and supercluster *)
  Index : Type;
  Tile : Type;
  GeoJSONVTOptions : Type;
  ClusterSettings : Type;
  geojsonvt : JSValue -> option GeoJSONVTOptions -> Completion Index;
  Supercluster_load :
    option (SuperclusterOptions ClusterSettings) -> JSValue -> Completion Index;
  getTile : Index -> Z -> Z -> Z -> option Tile;
  tile_features : Tile -> JSValue;
  (** vt-pbf *)
  vtpbf : GeoJSONWrapper -> Uint8Array;
  (** geojson_source_diff.ts *)
  GeoJSONSourceDiff : Type;
  applySourceDiff : Store -> GeoJSONSourceDiff -> option string -> Store;
  (** util/performance, [new RequestPerformance(request).finish()] *)
  finish : RequestParameters -> option JSValue
}.

(** [ClusterProperties]: output name to [[operator, mapExpression]], in the
    order [Object.keys] lists the names. *)
Definition ClusterProperties : Type := list (string * (JSValue * JSValue)).

Section Worker.
Context `{Collaborators}.

Record LoadGeoJSONParameters : Type := mkParams {
  source : option string;
  cluster : bool;
  geojsonVtOptions : option GeoJSONVTOptions;
  superclusterOptions : option (SuperclusterOptions ClusterSettings);
  clusterProperties : option ClusterProperties;
  filter : option (list JSValue);
  promoteId : option string;
  request : option RequestParameters;
  (** declared a string, tested with [typeof] at run time *)
  data : option JSValue;
  dataDiff : option GeoJSONSourceDiff
}.

(** *** loadGeoJSON (lines 212-240) *)

Definition invalid_input (src : option string) : string :=
  "Input data given to '" ++ JS.interpolate src ++ "' is not a valid GeoJSON object.".

Definition cannot_update (src : option string) : string :=
  "Cannot update existing geojson data in " ++ JS.interpolate src.

(** The store after a full load of [data] (lines 220 and 226). *)
Definition refresh_store (data : JSValue) (promote : option string) : option Store :=
  if isUpdateableGeoJSON data promote then Some (toUpdateable data promote) else None.

(** How far the async function gets when it is called: it either stops
    at [await getJSON(request, abortController)], or completes, with the
    value of [this._dataUpdateable] it leaves behind. *)
Inductive LoadGeoJSONStep : Type :=
| Await (r : RequestParameters)
| Done (c : Completion JSValue) (store : option Store).

(** Lines 232-239: what is left once no request is present and the
    literal data is not a string. *)
Definition diff_or_fail (params : LoadGeoJSONParameters) (store : option Store)
  : LoadGeoJSONStep :=
  match dataDiff params with
  | Some diff =>
      match store with
      | Some st =>
          let st' := applySourceDiff st diff (promoteId params) in
          Done (Return (FeatureCollection (store_values st'))) (Some st')
      | None => Done (Throw (Error (cannot_update (source params)))) None
      end
  | None => Done (Throw (Error (invalid_input (source params)))) store
  end.

Definition loadGeoJSON (params : LoadGeoJSONParameters) (store : option Store)
  : LoadGeoJSONStep :=
  match request params with
  | Some r => Await r
  | None =>
      match data params with
      | Some (JStr text) =>
          match JSON_parse text with
          | Some parsed =>
              Done (Return parsed) (refresh_store parsed (promoteId params))
          | None => Done (Throw (Error (invalid_input (source params)))) store
          end
      | _ => diff_or_fail params store
      end
  end.

(** The rest of the request path, once [getJSON] has delivered [data]
    (lines 220-221): the store it leaves and the value it returns. *)
Definition loadGeoJSON_resume (params : LoadGeoJSONParameters) (data : JSValue)
  : JSValue * option Store :=
  (data, refresh_store data (promoteId params)).

(** A message names the source when the source's name, as a template
    literal prints it, occurs in it. *)
Definition names_source (msg : string) (src : option string) : Prop :=
  exists before after, msg = before ++ JS.interpolate src ++ after.

(** The parameters with the [data] property taken away. *)
Definition without_data (params : LoadGeoJSONParameters) : LoadGeoJSONParameters :=
  mkParams (source params) (cluster params) (geojsonVtOptions params)
           (superclusterOptions params) (clusterProperties params) (filter params)
           (promoteId params) (request params) None (dataDiff params).

End Worker.

(** ** getSuperclusterOptions (lines 266-303) *)

Section Cluster.
Context `{Collaborators}.

(** [globals = {accumulated: null, zoom: 0}] and [feature = {properties:
    null}] as they are created, before any callback runs. *)
Definition initial_env : ClosureEnv := mkEnv (mkGlobals JNull 0) JNull.

(** The argument of the second [createExpression] (line 280). *)
Definition reduce_expression (key : string) (operator : JSValue) : JSValue :=
  match operator with
  | JStr _ => JArr [operator; JArr [JStr "accumulated"]; JArr [JStr "get"; JStr key]]
  | _ => operator
  end.

(** The loop of lines 275-284, filling [mapExpressions] and
    [reduceExpressions] with the [value] of each compilation. *)
Definition expression_tables (cp : ClusterProperties)
  : gmap string (CompileResult Compiled) * gmap string (CompileResult Compiled) :=
  fold_left
    (fun tables entry =>
       let '(key, (operator, mapExpression)) := entry in
       (<[key := createExpression mapExpression None]> tables.1,
        <[key := createExpression (reduce_expression key operator) None]> tables.2))
    cp (∅, ∅).

(** [table[key].evaluate(globals, feature)].  The slot of a failed
    compilation holds the error list, which has no [evaluate]. *)
Definition evaluate_slot (slot : option (CompileResult Compiled))
           (g : Globals) (feature : JSValue) : Completion JSValue :=
  match slot with
  | Some (Success c) => Return (evaluate c g feature)
  | Some (Failure _) => Throw (TypeError "evaluate is not a function")
  | None => Throw (TypeError "Cannot read properties of undefined")
  end.

(** The loop of lines 289-291 over the remaining names. *)
Fixpoint map_loop (names : list string) (table : gmap string (CompileResult Compiled))
         (env : ClosureEnv) (properties : list (string * JSValue))
  : Completion (list (string * JSValue)) :=
  match names with
  | [] => Return properties
  | key :: rest =>
      match evaluate_slot (table !! key) (globals env) (feature_of env) with
      | Return v => map_loop rest table env (JS.set_field properties key v)
      | Throw e => Throw e
      end
  end.

(** [superclusterOptions.map] (lines 286-293). *)
Definition map_callback (names : list string)
           (mapExpressions : gmap string (CompileResult Compiled)) : MapCallback :=
  fun pointProperties env =>
    let env := mkEnv (globals env) pointProperties in
    (map_loop names mapExpressions env [], env).

(** The loop of lines 296-299 over the remaining names. *)
Fixpoint reduce_loop (names : list string) (table : gmap string (CompileResult Compiled))
         (accumulated : list (string * JSValue)) (env : ClosureEnv)
  : Completion unit * list (string * JSValue) * ClosureEnv :=
  match names with
  | [] => (Return tt, accumulated, env)
  | key :: rest =>
      let env :=
        mkEnv (mkGlobals (default JUndefined (JS.lookup_field accumulated key))
                         (zoom (globals env)))
              (feature_properties env) in
      match evaluate_slot (table !! key) (globals env) (feature_of env) with
      | Return v => reduce_loop rest table (JS.set_field accumulated key v) env
      | Throw e => (Throw e, accumulated, env)
      end
  end.

(** [superclusterOptions.reduce] (lines 294-300). *)
Definition reduce_callback (names : list string)
           (reduceExpressions : gmap string (CompileResult Compiled)) : ReduceCallback :=
  fun accumulated clusterProperties env =>
    reduce_loop names reduceExpressions accumulated
                (mkEnv (globals env) clusterProperties).

Definition getSuperclusterOptions (params : LoadGeoJSONParameters)
  : option (SuperclusterOptions ClusterSettings) :=
  match clusterProperties params, superclusterOptions params with
  | Some cp, Some options =>
      let propertyNames := cp.*1 in
      let tables := expression_tables cp in
      Some (mkSuperclusterOptions
              (passthrough options)
              (Some (map_callback propertyNames tables.1))
              (Some (reduce_callback propertyNames tables.2)))
  | _, _ => superclusterOptions params
  end.

(** The two callbacks in the words of their description.  [mapped]: for
    each output name, the value of its map expression on the point's
    properties.  [reduced]: for each output name in turn, the accumulated
    slot is set to [accumulatedProperties[name]], the reduce expression is
    evaluated on the incoming properties, and the result overwrites
    [accumulatedProperties[name]]. *)
Definition mapped (names : list string) (map_of : string -> Compiled)
           (g : Globals) (pointProperties : JSValue) : list (string * JSValue) :=
  (fun name => (name, evaluate (map_of name) g (JObj [("properties", pointProperties)])))
    <$> names.

Definition reduced (names : list string) (reduce_of : string -> Compiled)
           (accumulatedProperties : list (string * JSValue)) (incomingProperties : JSValue)
  : list (string * JSValue) :=
  fold_left
    (fun acc name =>
       JS.set_field acc name
         (evaluate (reduce_of name)
                   (mkGlobals (default JUndefined (JS.lookup_field acc name)) 0)
                   (JObj [("properties", incomingProperties)])))
    names accumulatedProperties.

End Cluster.

(** ** loadGeoJSONTile (lines 78-104) *)

Section TileExtractor.
Context `{Collaborators}.

Record CanonicalTileID : Type := mkCanonical { z : Z; x : Z; y : Z }.

Record LoadVectorTileResult : Type := mkTileResult {
  vectorTile : GeoJSONWrapper;
  rawData : list Byte.byte
}.

(** Lines 95-98. *)
Definition tighten (pbf : Uint8Array) : Uint8Array :=
  if negb (byteOffset pbf =? 0)%nat || negb (byteLength pbf =? length (buffer pbf))%nat
  then Uint8Array_from pbf
  else pbf.

(** The promise the async function returns is fulfilled with [None] for
    its bare [return]. *)
Definition loadGeoJSONTile (index : option Index) (canonical : CanonicalTileID)
  : Completion (option LoadVectorTileResult) :=
  match index with
  | None => Return None
  | Some idx =>
      match getTile idx (z canonical) (x canonical) (y canonical) with
      | None => Return None
      | Some geoJSONTile =>
          let geojsonWrapper := mkGeoJSONWrapper (tile_features geoJSONTile) in
          let pbf := tighten (vtpbf geojsonWrapper) in
          Return (Some (mkTileResult geojsonWrapper (buffer pbf)))
      end
  end.

End TileExtractor.

(** ** The load coordinator: loadData and removeSource

    [loadData] runs in two parts: the synchronous part up to the return
    of its promise, and the reaction that runs when the promise of
    [loadGeoJSON] settles.  Between the two, other calls and other
    reactions may run; the state they share is the source object, and the
    worker's event loop below says in which orders they can run.

    [rewind] is taken as a function on values.  That it rewrites in place
    the features which the store shares with the loaded collection is not
    represented. *)

Section Coordinator.
Context `{Collaborators}.

(** The fields of the worker source that this file reads and writes. *)
Record GeoJSONWorkerSource : Type := mkSource {
  _pendingPromise : option nat;
  _pendingRequest : option nat;
  _geoJSONIndex : option Index;
  _dataUpdateable : option Store;
  loaded : list Z
}.

(** [GeoJSONWorkerSourceLoadDataResult]: [{abandoned: true}], or the
    result with its optional [resourceTiming] entry. *)
Inductive LoadDataResult : Type :=
| abandoned
| completed (resourceTiming : option (string * JSValue)).

(** The state of a promise returned by [loadData]; [None] is pending. *)
Inductive Settlement : Type :=
| Fulfilled (value : LoadDataResult)
| Rejected (reason : JSError).

(** The reactions attached to the promise of [loadGeoJSON] at lines 133
    and 178, with what each closes over.  A rejection reaches the handler
    of line 178 through the promise [then] returns; that handler settles
    its own promise and touches nothing else, so it is queued directly. *)
Inductive Job : Type :=
| OnData (params : LoadGeoJSONParameters) (perf : option RequestParameters)
         (promise : nat) (data : JSValue)
| OnError (promise : nat) (err : JSError).

(** A [loadGeoJSON] stopped at its [await]. *)
Record Frame : Type := mkFrame {
  frame_params : LoadGeoJSONParameters;
  frame_perf : option RequestParameters;
  frame_signal : nat
}.

(** What the source asked of promises and controllers, oldest first. *)
Inductive Call : Type :=
| Abort (controller : nat)
| Resolve (promise : nat) (value : LoadDataResult)
| Reject (promise : nat) (reason : JSError)
| Register (promise controller : nat).

(** The worker: the source object, the promises [loadData] has returned
    and the abort controllers it has made (both by allocation order),
    the suspended [loadGeoJSON] frames by promise, the queue of
    reactions ready to run, and the calls made so far. *)
Record World : Type := mkWorld {
  this : GeoJSONWorkerSource;
  promises : list (option Settlement);
  controllers : list bool;
  awaiting : gmap nat Frame;
  microtasks : list Job;
  history : list Call
}.

Definition init : World :=
  mkWorld (mkSource None None None (Some []) []) [] [] ∅ [] [].

Definition with_this (f : GeoJSONWorkerSource -> GeoJSONWorkerSource) (w : World) : World :=
  mkWorld (f (this w)) (promises w) (controllers w) (awaiting w) (microtasks w) (history w).

Definition enqueue (j : Job) (w : World) : World :=
  mkWorld (this w) (promises w) (controllers w) (awaiting w) (microtasks w ++ [j]) (history w).

(** [controller.abort()]. *)
Definition abort (c : nat) (w : World) : World :=
  mkWorld (this w) (promises w) (<[c := true]> (controllers w)) (awaiting w)
          (microtasks w) (history w ++ [Abort c]).

(** A promise settles once; a later call of its [resolve] or [reject]
    has no effect. *)
Definition settle (p : nat) (s : Settlement) (ps : list (option Settlement))
  : list (option Settlement) :=
  match ps !! p with
  | Some None => <[p := Some s]> ps
  | _ => ps
  end.

Definition resolve (p : nat) (v : LoadDataResult) (w : World) : World :=
  mkWorld (this w) (settle p (Fulfilled v) (promises w)) (controllers w) (awaiting w)
          (microtasks w) (history w ++ [Resolve p v]).

Definition reject (p : nat) (e : JSError) (w : World) : World :=
  mkWorld (this w) (settle p (Rejected e) (promises w)) (controllers w) (awaiting w)
          (microtasks w) (history w ++ [Reject p e]).

(** Lines 122-126. *)
Definition abandon_pending (w : World) : World :=
  let w := match _pendingRequest (this w) with
           | Some c => abort c w
           | None => w
           end in
  match _pendingPromise (this w) with
  | Some p => resolve p abandoned w
  | None => w
  end.

(** Lines 128-129. *)
Definition start_perf (params : LoadGeoJSONParameters) : option RequestParameters :=
  match request params with
  | Some r => if collectResourceTiming r then Some r else None
  | None => None
  end.

(** The reaction that runs once [loadGeoJSON] has completed: the callback
    of line 133 on a value, the handler of line 178 on an error. *)
Definition reaction (params : LoadGeoJSONParameters) (p : nat) (c : Completion JSValue) : Job :=
  match c with
  | Return data => OnData params (start_perf params) p data
  | Throw e => OnError p e
  end.

(** Lines 127-133, up to the call of [loadGeoJSON] and the reactions
    attached to its promise. *)
Definition start_load (params : LoadGeoJSONParameters) (w : World) : nat * World :=
  let perf := start_perf params in
  let p := length (promises w) in
  let c := length (controllers w) in
  let w := mkWorld (mkSource (Some p) (Some c) (_geoJSONIndex (this w))
                             (_dataUpdateable (this w)) (loaded (this w)))
                   (promises w ++ [None]) (controllers w ++ [false]) (awaiting w)
                   (microtasks w) (history w ++ [Register p c]) in
  match loadGeoJSON params (_dataUpdateable (this w)) with
  | Await _ =>
      (p, mkWorld (this w) (promises w) (controllers w)
                  (<[p := mkFrame params perf c]> (awaiting w))
                  (microtasks w) (history w))
  | Done c store =>
      (p, enqueue (reaction params p c)
                  (with_this (fun s => mkSource (_pendingPromise s) (_pendingRequest s)
                                         (_geoJSONIndex s) store (loaded s)) w))
  end.

(** [loadData(params)], to the point where it returns its promise. *)
Definition loadData (params : LoadGeoJSONParameters) (w : World) : nat * World :=
  start_load params (abandon_pending w).

(** [removeSource] (lines 242-247). *)
Definition removeSource (w : World) : World :=
  match _pendingPromise (this w) with
  | Some p => resolve p abandoned w
  | None => w
  end.

(** *** The reaction to the loaded data (lines 133-177) *)

(** The second argument of [createExpression] at line 149. *)
Definition filter_spec : PropertySpec :=
  mkPropertySpec "boolean" "data-driven" false false.

(** The message thrown at line 151. *)
Definition compile_error_message (errs : list ParsingError) : string :=
  JS.join ", " ((fun err => key err ++ ": " ++ err_message err) <$> errs).

(** Lines 148-155: the collection after the filter, if there is one. *)
Definition apply_filter (params : LoadGeoJSONParameters) (data : JSValue)
  : Completion JSValue :=
  match filter params with
  | Some f =>
      match createExpression (JArr f) (Some filter_spec) with
      | Failure errs => Throw (Error (compile_error_message errs))
      | Success compiled =>
          match features_of data with
          | Some fs =>
              Return (FeatureCollection
                        (List.filter
                           (fun feature =>
                              JS.truthy (evaluate compiled (mkGlobals JUndefined 0) feature))
                           fs))
          | None => Throw (TypeError "data.features.filter is not a function")
          end
      end
  | None => Return data
  end.

(** Lines 157-159. *)
Definition build_index (params : LoadGeoJSONParameters) (data : JSValue)
  : Completion Index :=
  if cluster params
  then Supercluster_load (getSuperclusterOptions params) (JS.get data "features")
  else geojsonvt data (geojsonVtOptions params).

(** The body of the [try] (lines 147-163). *)
Definition filter_and_index (params : LoadGeoJSONParameters) (data : JSValue)
  : Completion Index :=
  match apply_filter params data with
  | Return data => build_index params data
  | Throw e => Throw e
  end.

(** Lines 167-176. *)
Definition timing_result (params : LoadGeoJSONParameters)
           (perf : option RequestParameters) : option (string * JSValue) :=
  match perf with
  | Some r =>
      match finish r with
      | Some resourceTimingData => Some (JS.interpolate (source params), resourceTimingData)
      | None => None
      end
  | None => None
  end.

(** Lines 134-135. *)
Definition clear_pending (w : World) : World :=
  with_this (fun s => mkSource None None (_geoJSONIndex s) (_dataUpdateable s) (loaded s)) w.

Definition on_data (params : LoadGeoJSONParameters) (perf : option RequestParameters)
           (p : nat) (data : JSValue) (w : World) : World :=
  let w := clear_pending w in
  if negb (JS.truthy data) then reject p (Error "No data was returned") w
  else if negb (String.eqb (JS.typeof data) "object")
  then reject p (Error (invalid_input (source params))) w
  else
    match filter_and_index params (rewind data) with
    | Throw err => reject p err w
    | Return index =>
        let w := with_this (fun s => mkSource (_pendingPromise s) (_pendingRequest s)
                                       (Some index) (_dataUpdateable s) []) w in
        resolve p (completed (timing_result params perf)) w
    end.

(** Line 178. *)
Definition on_error (p : nat) (err : JSError) (w : World) : World :=
  reject p err w.

Definition run_job (j : Job) (w : World) : World :=
  match j with
  | OnData params perf p data => on_data params perf p data w
  | OnError p err => on_error p err w
  end.

(** *** The worker's event loop *)

(** What can happen next: a caller invokes a method, the oldest queued
    reaction runs, or the transport settles the [getJSON] promise that
    the load behind promise [p] is waiting on. *)
Inductive Event : Type :=
| CallLoadData (params : LoadGeoJSONParameters)
| CallRemoveSource
| RunMicrotask
| Responds (p : nat) (data : JSValue)
| Fails (p : nat) (err : JSError).

Definition drop_frame (p : nat) (w : World) : World :=
  mkWorld (this w) (promises w) (controllers w) (delete p (awaiting w))
          (microtasks w) (history w).

(** [None] when the event cannot happen in [w]. *)
Definition step (ev : Event) (w : World) : option World :=
  match ev with
  | CallLoadData params => Some (loadData params w).2
  | CallRemoveSource => Some (removeSource w)
  | RunMicrotask =>
      match microtasks w with
      | j :: rest =>
          Some (run_job j (mkWorld (this w) (promises w) (controllers w) (awaiting w)
                                   rest (history w)))
      | [] => None
      end
  | Responds p data =>
      match awaiting w !! p with
      | Some fr =>
          let '(data, store) := loadGeoJSON_resume (frame_params fr) data in
          Some (enqueue (OnData (frame_params fr) (frame_perf fr) p data)
                        (with_this (fun s => mkSource (_pendingPromise s) (_pendingRequest s)
                                               (_geoJSONIndex s) store (loaded s))
                                   (drop_frame p w)))
      | None => None
      end
  | Fails p err =>
      match awaiting w !! p with
      | Some fr => Some (enqueue (OnError p err) (drop_frame p w))
      | None => None
      end
  end.

Fixpoint run (evs : list Event) (w : World) : option World :=
  match evs with
  | [] => Some w
  | ev :: rest =>
      match step ev w with
      | Some w' => run rest w'
      | None => None
      end
  end.

(** A transport that honours cancellation never delivers data to a
    load whose controller has been aborted. *)
Definition honours_abort (ev : Event) (w : World) : bool :=
  match ev with
  | Responds p _ =>
      match awaiting w !! p with
      | Some fr => negb (default false (controllers w !! frame_signal fr))
      | None => true
      end
  | _ => true
  end.

Fixpoint run_honouring (evs : list Event) (w : World) : option World :=
  match evs with
  | [] => Some w
  | ev :: rest =>
      if honours_abort ev w then
        match step ev w with
        | Some w' => run_honouring rest w'
        | None => None
        end
      else None
  end.

(** The state of promise [p]. *)
Definition outcome (w : World) (p : nat) : option Settlement :=
  mjoin (promises w !! p).

(** Promise [p] has been returned to a caller and is not settled. *)
Definition pending (w : World) (p : nat) : Prop :=
  promises w !! p = Some None.

(** The two bookkeeping fields go together: both unset, or set to the
    callback and the controller that one call of [loadData] made. *)
Definition registered_together (w : World) : Prop :=
  length (promises w) = length (controllers w)
  /\ match _pendingPromise (this w), _pendingRequest (this w) with
     | Some p, Some c => p = c /\ c < length (controllers w)
     | None, None => True
     | _, _ => False
     end.

(** The shape of a feature collection: an object whose [type] says so and
    whose [features] is an array. *)
Definition feature_collection_shape (v : JSValue) : bool :=
  match JS.get v "type", features_of v with
  | JStr t, Some _ => String.eqb t "FeatureCollection"
  | _, _ => false
  end.

End Coordinator.

(** ** reloadTile and the cluster queries (lines 191-263) *)

(** The methods of a [Supercluster] index that the query surface calls.
    An index without them (a geojson-vt index) answers by throwing. *)
Class SuperclusterMethods `{Collaborators} : Type := {
  index_getClusterExpansionZoom : Index -> Z -> Completion Z;
  index_getChildren : Index -> Z -> Completion (list JSValue);
  index_getLeaves : Index -> Z -> Z -> Z -> Completion (list JSValue)
}.

Section Remaining.
Context `{SuperclusterMethods}.

(** The promise a reaction settles. *)
Definition job_promise (j : Job) : nat :=
  match j with
  | OnData _ _ p _ => p
  | OnError p _ => p
  end.

(** Every unsettled promise has a reaction queued for it or a
    [loadGeoJSON] waiting on the transport for it. *)
Definition accounted (w : World) : Prop :=
  forall p, pending w p ->
    is_Some (awaiting w !! p) \/ Exists (fun j => job_promise j = p) (microtasks w).

(** The controller registered on the source has not been aborted. *)
Definition live_token (w : World) : Prop :=
  forall c, _pendingRequest (this w) = Some c -> controllers w !! c = Some false.

(** The promise made together with an aborted controller is settled. *)
Definition aborted_settled (w : World) : Prop :=
  forall c, controllers w !! c = Some true -> exists s, promises w !! c = Some (Some s).

(** An index is in place only after some reaction has resolved its
    promise with a result. *)
Definition index_accounted (w : World) : Prop :=
  is_Some (_geoJSONIndex (this w)) ->
  exists p r, Resolve p (completed r) ∈ history w.

(** Which of the two inherited methods [reloadTile] hands the tile to. *)
Inductive ReloadRoute : Type :=
| SuperReloadTile
| LoadTile.

(** [reloadTile] (lines 191-200).  [loaded] lists the uids that have an
    entry in [this.loaded]. *)
Definition reloadTile (s : GeoJSONWorkerSource) (uid : Z) : ReloadRoute :=
  if existsb (Z.eqb uid) (loaded s) then SuperReloadTile else LoadTile.

(** What [evaluate_slot] throws at a slot that holds an error list. *)
Definition not_a_function : JSError := TypeError "evaluate is not a function".

(** A method called on [this._geoJSONIndex] when there is none. *)
Definition no_index {A : Type} : Completion A :=
  Throw (TypeError "Cannot read properties of undefined").

(** Lines 249-251. *)
Definition getClusterExpansionZoom (s : GeoJSONWorkerSource) (clusterId : Z) : Completion Z :=
  match _geoJSONIndex s with
  | Some idx => index_getClusterExpansionZoom idx clusterId
  | None => no_index
  end.

(** Lines 253-255. *)
Definition getClusterChildren (s : GeoJSONWorkerSource) (clusterId : Z)
  : Completion (list JSValue) :=
  match _geoJSONIndex s with
  | Some idx => index_getChildren idx clusterId
  | None => no_index
  end.

(** Lines 257-263. *)
Definition getClusterLeaves (s : GeoJSONWorkerSource) (clusterId limit offset : Z)
  : Completion (list JSValue) :=
  match _geoJSONIndex s with
  | Some idx => index_getLeaves idx clusterId limit offset
  | None => no_index
  end.

End Remaining.

(** ** A concrete set of collaborators

    Small stand-ins used to run the embedding on concrete inputs: an
    evaluator for a handful of expression forms, an index that records
    what it was built from, an encoder that returns a window into a
    larger buffer. *)

Module Sample.

Definition known_operators : list string := ["get"; "accumulated"; "+"; "=="].

Definition compile (e : JSValue) (_ : option PropertySpec) : CompileResult JSValue :=
  match e with
  | JArr (JStr op :: _) =>
      if existsb (String.eqb op) known_operators then Success e
      else Failure [mkParsingError "[0]" ("Unknown expression " ++ op)]
  | JArr _ => Failure [mkParsingError "" "Expected an array with at least one element"]
  | _ => Success e
  end.

Fixpoint eval (e : JSValue) (g : Globals) (feature : JSValue) : JSValue :=
  match e with
  | JArr (JStr op :: args) =>
      if String.eqb op "get" then
        match args with
        | [JStr k] => JS.get (JS.get feature "properties") k
        | _ => JNull
        end
      else if String.eqb op "accumulated" then accumulated g
      else
        match args with
        | [a; b] =>
            let va := eval a g feature in
            let vb := eval b g feature in
            if String.eqb op "+" then
              match va, vb with
              | JNum m, JNum n => JNum (m + n)
              | _, _ => JNaN
              end
            else if String.eqb op "==" then JBool (sameValueZero va vb)
            else JNull
        | _ => JNull
        end
  | _ => e
  end.

Definition dq : string := String (Ascii.ascii_of_nat 34) EmptyString.
Definition quoted (s : string) : string := dq ++ s ++ dq.

(** The text of an empty feature collection. *)
Definition empty_collection_text : string :=
  "{" ++ quoted "type" ++ ":" ++ quoted "FeatureCollection" ++ ","
      ++ quoted "features" ++ ":[]}".

(** [JSON.parse] on the texts the examples use; any other text is taken
    to be malformed. *)
Definition parse (text : string) : option JSValue :=
  if String.eqb text empty_collection_text then Some (FeatureCollection [])
  else if String.eqb text "null" then Some JNull
  else if String.eqb text "5" then Some (JNum 5)
  else None.

(** The index remembers whether it is a cluster index and what it was
    built from. *)
Record RecordedIndex : Type := mkRecorded { clustered : bool; built_from : JSValue }.

(** A one-tile world: everything is in tile 0/0/0. *)
Definition tile_at (idx : RecordedIndex) (z x y : Z) : option JSValue :=
  if ((z =? 0) && (x =? 0) && (y =? 0))%Z
  then match features_of (built_from idx) with
       | Some (f :: fs) => Some (JArr (f :: fs))
       | _ => None
       end
  else None.

(** One byte per feature, written into the middle of a larger buffer. *)
Definition encode (w : GeoJSONWrapper) : Uint8Array :=
  let n := match wrapped_features w with JArr fs => length fs | _ => 0 end in
  mkUint8Array ([Byte.x00; Byte.x00] ++ repeat Byte.x2a n ++ [Byte.x00]) 2 n.

(** A diff that only removes features, by identifier. *)
Definition remove_ids (st : Store) (ids : list JSValue) (_ : option string) : Store :=
  List.filter (fun entry => negb (existsb (sameValueZero entry.1) ids)) st.

Definition collaborators_with
           (compiler : JSValue -> option PropertySpec -> CompileResult JSValue)
  : Collaborators :=
  {| Compiled := JSValue;
     createExpression := compiler;
     evaluate := eval;
     JSON_parse := parse;
     rewind := fun data => data;
     Index := RecordedIndex;
     Tile := JSValue;
     GeoJSONVTOptions := unit;
     ClusterSettings := unit;
     geojsonvt := fun data _ => Return (mkRecorded false data);
     Supercluster_load := fun _ features => Return (mkRecorded true features);
     getTile := tile_at;
     tile_features := fun t => t;
     vtpbf := encode;
     GeoJSONSourceDiff := list JSValue;
     applySourceDiff := remove_ids;
     finish := fun _ => None |}.

Definition collaborators : Collaborators := collaborators_with compile.

(** A compiler that accepts nothing and reports, as its errors, the
    property specification it was called with. *)
Definition report_spec (_ : JSValue) (spec : option PropertySpec) : CompileResult JSValue :=
  match spec with
  | Some s => Failure [mkParsingError "property-type" (property_type s);
                       mkParsingError "type" (spec_type s)]
  | None => Failure [mkParsingError "" "no specification"]
  end.

Definition probe : Collaborators := collaborators_with report_spec.

(** A point feature with an [id] and one property. *)
Definition point (id : Z) (kind : string) : JSValue :=
  JObj [("type", JStr "Feature"); ("id", JNum id);
        ("geometry", JObj [("type", JStr "Point"); ("coordinates", JArr [JNum 0; JNum 0])]);
        ("properties", JObj [("kind", JStr kind); ("count", JNum 1)])].

(** Parameters that name the source and set the three inputs. *)
Definition inputs {C : Collaborators} (r : option RequestParameters) (d : option JSValue)
           (diff : option GeoJSONSourceDiff) : LoadGeoJSONParameters :=
  mkParams (Some "s") false None None None None None r d diff.

(** Parameters with nothing set but the source name. *)
Definition bare : @LoadGeoJSONParameters collaborators := inputs None None None.

Definition with_data (text : string) : @LoadGeoJSONParameters collaborators :=
  inputs None (Some (JStr text)) None.

Definition with_request (address : string) : @LoadGeoJSONParameters collaborators :=
  inputs (Some (mkRequest address false)) None None.

(** A literal load with a filter. *)
Definition filtered {C : Collaborators} (f : list JSValue) : LoadGeoJSONParameters :=
  mkParams (Some "s") false None None None (Some f) None None
           (Some (JStr empty_collection_text)) None.

(** The filter of the spec's example: keep the features whose [kind] is
    city. *)
Definition city_filter : list JSValue :=
  [JStr "=="; JArr [JStr "get"; JStr "kind"]; JStr "city"].

(** The sample collaborators with a performance probe that returns the
    address it timed. *)
Definition timed : Collaborators :=
  {| Compiled := JSValue;
     createExpression := compile;
     evaluate := eval;
     JSON_parse := parse;
     rewind := fun data => data;
     Index := RecordedIndex;
     Tile := JSValue;
     GeoJSONVTOptions := unit;
     ClusterSettings := unit;
     geojsonvt := fun data _ => Return (mkRecorded false data);
     Supercluster_load := fun _ features => Return (mkRecorded true features);
     getTile := tile_at;
     tile_features := fun t => t;
     vtpbf := encode;
     GeoJSONSourceDiff := list JSValue;
     applySourceDiff := remove_ids;
     finish := fun r => Some (JArr [JStr (url r)]) |}.

(** Cluster queries on the recording index: a cluster index reports zoom
    1 and no features, a tile index has no such methods. *)
Definition methods : @SuperclusterMethods collaborators :=
  {| index_getClusterExpansionZoom := fun (idx : @Index collaborators) _ =>
       if clustered idx then Return 1%Z
       else Throw (TypeError "getClusterExpansionZoom is not a function");
     index_getChildren := fun (idx : @Index collaborators) _ =>
       if clustered idx then Return []
       else Throw (TypeError "getChildren is not a function");
     index_getLeaves := fun (idx : @Index collaborators) _ _ _ =>
       if clustered idx then Return []
       else Throw (TypeError "getLeaves is not a function") |}.

(** A clustered literal load with the given cluster properties. *)
Definition clustering {C : Collaborators} (options : SuperclusterOptions ClusterSettings)
           (cp : ClusterProperties) : LoadGeoJSONParameters :=
  mkParams (Some "s") true None (Some options) (Some cp) None None None
           (Some (JStr empty_collection_text)) None.

End Sample.

(** * Properties *)

(** ** Input selection in loadGeoJSON *)

Section LoadGeoJSONFacts.
Context `{Collaborators}.

Lemma invalid_input_names_source src : names_source (invalid_input src) src.
Proof. eexists _, _. reflexivity. Qed.

Lemma append_empty_r (s : string) : s ++ "" = s.
Proof.
  induction s as [|c s IH]; [reflexivity |].
  change (String c (s ++ "") = String c s). now rewrite IH.
Qed.

Lemma cannot_update_names_source src : names_source (cannot_update src) src.
Proof.
  exists "Cannot update existing geojson data in ", "".
  unfold cannot_update. now rewrite append_empty_r.
Qed.

Lemma typeof_string v : JS.typeof v = "string" <-> exists text, v = JStr text.
Proof.
  split.
  - destruct v; simpl; intros E; try discriminate. eauto.
  - intros [text ->]. reflexivity.
Qed.

Lemma loadGeoJSON_no_text params store :
  request params = None ->
  (forall text, data params <> Some (JStr text)) ->
  loadGeoJSON params store = diff_or_fail params store.
Proof.
  intros Hreq Hdata. unfold loadGeoJSON, diff_or_fail. rewrite Hreq.
  destruct (data params) as [[]|]; try reflexivity.
  exfalso. eapply Hdata. reflexivity.
Qed.

(** C4: the input is chosen in the order request, then textual data,
    then diff.  A request is awaited from the transport whatever else is
    set; without a request, textual data is parsed whatever the diff;
    without either, a diff is applied to the store, or refused with a
    message naming the source when there is no store; with none of the
    three the call throws the invalid-input error, whose message names
    the source. *)
Theorem loadGeoJSON_priority (params : LoadGeoJSONParameters) (store : option Store) :
  (forall r, request params = Some r -> loadGeoJSON params store = Await r)
  /\ (forall text,
        request params = None -> data params = Some (JStr text) ->
        loadGeoJSON params store =
          match JSON_parse text with
          | Some parsed => Done (Return parsed) (refresh_store parsed (promoteId params))
          | None => Done (Throw (Error (invalid_input (source params)))) store
          end)
  /\ (forall diff st,
        request params = None -> (forall text, data params <> Some (JStr text)) ->
        dataDiff params = Some diff -> store = Some st ->
        loadGeoJSON params store =
          Done (Return (FeatureCollection
                          (store_values (applySourceDiff st diff (promoteId params)))))
               (Some (applySourceDiff st diff (promoteId params))))
  /\ (forall diff,
        request params = None -> (forall text, data params <> Some (JStr text)) ->
        dataDiff params = Some diff -> store = None ->
        loadGeoJSON params store = Done (Throw (Error (cannot_update (source params)))) None
        /\ names_source (cannot_update (source params)) (source params))
  /\ (request params = None -> (forall text, data params <> Some (JStr text)) ->
      dataDiff params = None ->
      loadGeoJSON params store = Done (Throw (Error (invalid_input (source params)))) store
      /\ names_source (invalid_input (source params)) (source params)).
Proof.
  split; [| split; [| split; [| split]]].
  - intros r Hr. unfold loadGeoJSON. now rewrite Hr.
  - intros text Hr Hd. unfold loadGeoJSON. now rewrite Hr, Hd.
  - intros diff st Hr Hd Hdiff ->. rewrite loadGeoJSON_no_text by assumption.
    unfold diff_or_fail. now rewrite Hdiff.
  - intros diff Hr Hd Hdiff ->. split; [| apply cannot_update_names_source].
    rewrite loadGeoJSON_no_text by assumption.
    unfold diff_or_fail. now rewrite Hdiff.
  - intros Hr Hd Hdiff. split; [| apply invalid_input_names_source].
    rewrite loadGeoJSON_no_text by assumption.
    unfold diff_or_fail. now rewrite Hdiff.
Qed.

(** C10: without a request, a [data] value that is not a string is never
    used: the call does exactly what it does with no [data] at all, that
    is, it takes the diff path when a diff is present and otherwise
    throws the invalid-GeoJSON-object error naming the source.  Nothing
    is parsed. *)
Theorem non_string_data_ignored (params : LoadGeoJSONParameters)
        (store : option Store) (v : JSValue) :
  request params = None ->
  data params = Some v ->
  JS.typeof v <> "string" ->
  loadGeoJSON params store = loadGeoJSON (without_data params) store
  /\ loadGeoJSON params store = diff_or_fail params store
  /\ (dataDiff params = None ->
      loadGeoJSON params store = Done (Throw (Error (invalid_input (source params)))) store
      /\ names_source (invalid_input (source params)) (source params))
  /\ (forall parsed store', loadGeoJSON params store = Done (Return parsed) store' ->
      exists diff, dataDiff params = Some diff).
Proof.
  intros Hr Hd Hv.
  assert (Hns : forall text, data params <> Some (JStr text)).
  { intros text E. rewrite Hd in E. injection E as ->. now apply Hv. }
  assert (E : loadGeoJSON params store = diff_or_fail params store)
    by now apply loadGeoJSON_no_text.
  split; [| split; [| split]].
  - rewrite E. rewrite (loadGeoJSON_no_text (without_data params)); [reflexivity | exact Hr |].
    intros text; discriminate.
  - exact E.
  - intros Hdiff. split; [| apply invalid_input_names_source].
    rewrite E. unfold diff_or_fail. now rewrite Hdiff.
  - intros parsed store'. rewrite E. unfold diff_or_fail.
    destruct (dataDiff params); [eauto | discriminate].
Qed.

End LoadGeoJSONFacts.

(** ** Tile extraction *)

Section TileFacts.
Context `{Collaborators}.

Lemma nth_seq_all (l : list Byte.byte) (d : Byte.byte) :
  (fun i => nth i l d) <$> seq 0 (length l) = l.
Proof.
  induction l as [|b l IH]; [reflexivity |].
  cbn [length seq fmap list_fmap nth]. f_equal.
  rewrite <- seq_shift.
  change (list_fmap nat Byte.byte ?f ?xs) with (f <$> xs).
  rewrite <- list_fmap_compose. exact IH.
Qed.

Lemma view_bytes_length (a : Uint8Array) : length (view_bytes a) = byteLength a.
Proof. unfold view_bytes. now rewrite length_fmap, length_seq. Qed.

Lemma view_bytes_whole (a : Uint8Array) :
  byteOffset a = 0 -> byteLength a = length (buffer a) -> view_bytes a = buffer a.
Proof.
  intros Ho Hl. unfold view_bytes. rewrite Ho, Hl. apply nth_seq_all.
Qed.

(** The view handed on starts at offset zero, spans its whole buffer and
    shows the encoder's bytes. *)
Lemma tighten_tight (pbf : Uint8Array) :
  byteOffset (tighten pbf) = 0
  /\ byteLength (tighten pbf) = length (buffer (tighten pbf))
  /\ buffer (tighten pbf) = view_bytes pbf.
Proof.
  unfold tighten.
  destruct (Nat.eqb_spec (byteOffset pbf) 0) as [Ho|Ho];
    destruct (Nat.eqb_spec (byteLength pbf) (length (buffer pbf))) as [Hl|Hl];
    cbn [negb orb Uint8Array_from buffer byteOffset byteLength];
    rewrite ?view_bytes_length; try (split; [reflexivity | split; reflexivity]).
  split; [exact Ho | split; [exact Hl |]].
  symmetry. now apply view_bytes_whole.
Qed.

(** C9: with no index, or no tile at the address, the call returns
    nothing and does not throw.  Otherwise [rawData] is the buffer of a
    view at offset zero whose length is the buffer's, holding exactly the
    bytes the encoder produced; when the encoder's view is a window into
    a larger buffer that view is a fresh copy. *)
Theorem loadGeoJSONTile_tight (index : option Index) (canonical : CanonicalTileID) :
  (index = None -> loadGeoJSONTile index canonical = Return None)
  /\ (forall idx,
        index = Some idx ->
        getTile idx (z canonical) (x canonical) (y canonical) = None ->
        loadGeoJSONTile index canonical = Return None)
  /\ (forall idx tile,
        index = Some idx ->
        getTile idx (z canonical) (x canonical) (y canonical) = Some tile ->
        let wrapper := mkGeoJSONWrapper (tile_features tile) in
        exists pbf,
          loadGeoJSONTile index canonical
            = Return (Some (mkTileResult wrapper (buffer pbf)))
          /\ byteOffset pbf = 0
          /\ byteLength pbf = length (buffer pbf)
          /\ buffer pbf = view_bytes (vtpbf wrapper)
          /\ (byteOffset (vtpbf wrapper) <> 0
              \/ byteLength (vtpbf wrapper) <> length (buffer (vtpbf wrapper)) ->
              pbf = Uint8Array_from (vtpbf wrapper))).
Proof.
  split; [| split].
  - intros ->. reflexivity.
  - intros idx -> Hnone. unfold loadGeoJSONTile. now rewrite Hnone.
  - intros idx tile -> Hsome wrapper.
    exists (tighten (vtpbf wrapper)).
    destruct (tighten_tight (vtpbf wrapper)) as (Ho & Hl & Hb).
    split; [| split; [exact Ho | split; [exact Hl | split; [exact Hb |]]]].
    + unfold loadGeoJSONTile. now rewrite Hsome.
    + intros Hsub. unfold tighten.
      destruct (Nat.eqb_spec (byteOffset (vtpbf wrapper)) 0) as [Ho'|Ho'];
        destruct (Nat.eqb_spec (byteLength (vtpbf wrapper))
                               (length (buffer (vtpbf wrapper)))) as [Hl'|Hl'];
        try reflexivity.
      destruct Hsub; contradiction.
Qed.

End TileFacts.

(** ** Promises *)

Section PromiseFacts.
Context `{Collaborators}.

Lemma settle_pending (p : nat) (s : Settlement) (ps : list (option Settlement)) :
  ps !! p = Some None -> settle p s ps !! p = Some (Some s).
Proof.
  intros Hp. unfold settle. rewrite Hp.
  apply list_lookup_insert_eq. now apply lookup_lt_Some in Hp.
Qed.

Lemma settle_settled (p : nat) (s s0 : Settlement) (ps : list (option Settlement)) :
  ps !! p = Some (Some s0) -> settle p s ps = ps.
Proof. intros Hp. unfold settle. now rewrite Hp. Qed.

Lemma settle_other (p q : nat) (s : Settlement) (ps : list (option Settlement)) :
  p <> q -> settle p s ps !! q = ps !! q.
Proof.
  intros Hne. unfold settle.
  destruct (ps !! p) as [[|]|]; try reflexivity.
  now apply list_lookup_insert_ne.
Qed.

(** Once settled, a promise keeps its settlement whatever is settled next. *)
Lemma settle_keeps (p q : nat) (s s0 : Settlement) (ps : list (option Settlement)) :
  ps !! q = Some (Some s0) -> settle p s ps !! q = Some (Some s0).
Proof.
  intros Hq. destruct (decide (p = q)) as [->|Hne].
  - now rewrite (settle_settled _ _ s0).
  - now rewrite settle_other.
Qed.

Lemma settle_length (p : nat) (s : Settlement) (ps : list (option Settlement)) :
  length (settle p s ps) = length ps.
Proof. unfold settle. destruct (ps !! p) as [[|]|]; now rewrite ?length_insert. Qed.

Lemma outcome_reject (w : World) (p : nat) (e : JSError) :
  pending w p -> outcome (reject p e w) p = Some (Rejected e).
Proof. intros Hp. unfold outcome, reject; cbn. now rewrite settle_pending. Qed.

Lemma outcome_resolve (w : World) (p : nat) (v : LoadDataResult) :
  pending w p -> outcome (resolve p v w) p = Some (Fulfilled v).
Proof. intros Hp. unfold outcome, resolve; cbn. now rewrite settle_pending. Qed.

Lemma pending_clear (w : World) (p : nat) : pending w p -> pending (clear_pending w) p.
Proof. exact (fun Hp => Hp). Qed.

End PromiseFacts.

(** ** The reaction to the loaded data *)

Section OnDataFacts.
Context `{Collaborators}.

(** The values [!data] rejects. *)
Lemma falsy_values (v : JSValue) :
  JS.truthy v = false <->
  v = JUndefined \/ v = JNull \/ v = JBool false \/ v = JNum 0 \/ v = JNaN \/ v = JStr "".
Proof.
  split.
  - destruct v as [| |b|n| |s| |]; cbn; intros E; try discriminate;
      try (apply negb_false_iff in E;
           first [apply Z.eqb_eq in E | apply String.eqb_eq in E]);
      subst; auto 10.
  - intros [->|[->|[->|[->|[->| ->]]]]]; reflexivity.
Qed.

(** A truthy object passes both tests and goes on to the winding
    normalization and the [try] block. *)
Lemma on_data_proceeds (params : LoadGeoJSONParameters)
      (perf : option RequestParameters) (p : nat) (data : JSValue) (w : World) :
  JS.truthy data = true -> JS.typeof data = "object" ->
  on_data params perf p data w =
    match filter_and_index params (rewind data) with
    | Throw err => reject p err (clear_pending w)
    | Return index =>
        resolve p (completed (timing_result params perf))
                (with_this (fun s => mkSource (_pendingPromise s) (_pendingRequest s)
                                       (Some index) (_dataUpdateable s) [])
                           (clear_pending w))
    end.
Proof. intros Ht Hty. unfold on_data. rewrite Ht, Hty. reflexivity. Qed.

(** C5, as the code has it: the value is rejected with 'No data was
    returned' when it is falsy (undefined, null, false, 0, NaN or the
    empty string), and with the invalid-input error naming the source
    when it is truthy and its [typeof] is not object.  Every other value,
    of feature-collection shape or not, goes on to winding normalization
    and to the filter and index step. *)
Theorem on_data_validation (params : LoadGeoJSONParameters)
        (perf : option RequestParameters) (p : nat) (data : JSValue) (w : World) :
  pending w p ->
  (JS.truthy data = false ->
   on_data params perf p data w = reject p (Error "No data was returned") (clear_pending w)
   /\ outcome (on_data params perf p data w) p
      = Some (Rejected (Error "No data was returned")))
  /\ (JS.truthy data = true -> JS.typeof data <> "object" ->
      on_data params perf p data w
        = reject p (Error (invalid_input (source params))) (clear_pending w)
      /\ outcome (on_data params perf p data w) p
         = Some (Rejected (Error (invalid_input (source params))))
      /\ names_source (invalid_input (source params)) (source params))
  /\ (JS.truthy data = true -> JS.typeof data = "object" ->
      on_data params perf p data w =
        match filter_and_index params (rewind data) with
        | Throw err => reject p err (clear_pending w)
        | Return index =>
            resolve p (completed (timing_result params perf))
                    (with_this (fun s => mkSource (_pendingPromise s) (_pendingRequest s)
                                           (Some index) (_dataUpdateable s) [])
                               (clear_pending w))
        end).
Proof.
  intros Hp. split; [| split].
  - intros Hf.
    assert (E : on_data params perf p data w
                = reject p (Error "No data was returned") (clear_pending w)).
    { unfold on_data. now rewrite Hf. }
    split; [exact E |]. rewrite E. now apply outcome_reject.
  - intros Ht Hty.
    assert (E : on_data params perf p data w
                = reject p (Error (invalid_input (source params))) (clear_pending w)).
    { unfold on_data. rewrite Ht. cbn [negb].
      destruct (String.eqb_spec (JS.typeof data) "object"); [contradiction | reflexivity]. }
    split; [exact E | split; [| apply invalid_input_names_source]].
    rewrite E. now apply outcome_reject.
  - intros Ht Hty. now apply on_data_proceeds.
Qed.

Lemma filter_sublist {A} (f : A -> bool) (l : list A) : sublist (List.filter f l) l.
Proof.
  induction l as [|a l IH]; cbn; [constructor |].
  destruct (f a); now constructor.
Qed.

(** C6, as the code has it: a configured filter is compiled against the
    specification boolean, data-driven, not overridable, not
    transitioning.  When compilation fails the load is rejected with the
    errors' [key: message] texts joined by a comma and a space.  When it
    succeeds the index is built from the collection of exactly the
    features on which the compiled filter is truthy at zoom 0, in their
    original order. *)
Theorem filter_compiled_and_applied (params : LoadGeoJSONParameters)
        (perf : option RequestParameters) (p : nat) (data : JSValue) (w : World)
        (f : list JSValue) :
  filter params = Some f ->
  pending w p ->
  JS.truthy data = true ->
  JS.typeof data = "object" ->
  filter_spec = mkPropertySpec "boolean" "data-driven" false false
  /\ (forall errs,
        createExpression (JArr f) (Some filter_spec) = Failure errs ->
        outcome (on_data params perf p data w) p
        = Some (Rejected
                  (Error (JS.join ", " ((fun e => key e ++ ": " ++ err_message e) <$> errs)))))
  /\ (forall compiled fs,
        createExpression (JArr f) (Some filter_spec) = Success compiled ->
        features_of (rewind data) = Some fs ->
        let passes feature :=
          JS.truthy (evaluate compiled (mkGlobals JUndefined 0) feature) in
        let kept := List.filter passes fs in
        filter_and_index params (rewind data)
          = (if cluster params
             then Supercluster_load (getSuperclusterOptions params) (JArr kept)
             else geojsonvt (FeatureCollection kept) (geojsonVtOptions params))
        /\ (forall feature, In feature kept <-> In feature fs /\ passes feature = true)
        /\ sublist kept fs).
Proof.
  intros Hf Hp Ht Hty. split; [reflexivity | split].
  - intros errs Hc.
    rewrite (on_data_proceeds params perf p data w Ht Hty).
    unfold filter_and_index, apply_filter. rewrite Hf, Hc.
    now apply outcome_reject.
  - intros compiled fs Hc Hfs passes kept. split; [| split].
    + unfold filter_and_index, apply_filter. rewrite Hf, Hc, Hfs.
      unfold build_index. destruct (cluster params); reflexivity.
    + intros feature. apply filter_In.
    + apply filter_sublist.
Qed.

End OnDataFacts.

(** ** The updateable store across loads *)

Section StoreFacts.
Context `{Collaborators}.

Lemma abandon_pending_this (w : World) : this (abandon_pending w) = this w.
Proof.
  unfold abandon_pending.
  destruct (_pendingRequest (this w)); cbn;
    destruct (_pendingPromise (this w)); reflexivity.
Qed.

Lemma abandon_pending_microtasks (w : World) :
  microtasks (abandon_pending w) = microtasks w.
Proof.
  unfold abandon_pending.
  destruct (_pendingRequest (this w)); cbn;
    destruct (_pendingPromise (this w)); reflexivity.
Qed.

Lemma abandon_pending_length (w : World) :
  length (promises (abandon_pending w)) = length (promises w).
Proof.
  unfold abandon_pending.
  destruct (_pendingRequest (this w)); cbn;
    destruct (_pendingPromise (this w)); cbn; now rewrite ?settle_length.
Qed.

(** What a call of [loadData] leaves behind when [loadGeoJSON] completes
    without waiting: the store it wrote, and one reaction queued for the
    promise the call returned. *)
Lemma loadData_completed (params : LoadGeoJSONParameters) (w : World)
      (c : Completion JSValue) (store : option Store) :
  loadGeoJSON params (_dataUpdateable (this w)) = Done c store ->
  (loadData params w).1 = length (promises w)
  /\ _dataUpdateable (this (loadData params w).2) = store
  /\ microtasks (loadData params w).2
     = (microtasks w ++ [reaction params (length (promises w)) c])%list.
Proof.
  intros E. unfold loadData, start_load. cbn [this _dataUpdateable].
  rewrite abandon_pending_this, E, abandon_pending_length.
  cbn. rewrite abandon_pending_microtasks. auto.
Qed.

(** X17: a load that reaches the diff path (no request, no textual
    data, a diff) throws 'Cannot update existing geojson data in'
    followed by the source exactly when there is no store, and leaves no
    store.  With a store it applies the diff to it, keeps the patched
    store, and returns the object [{type: 'FeatureCollection', features}]
    whose features are the patched store's values, one per entry, in the
    store's order. *)
Theorem diff_load_materializes_store (params : LoadGeoJSONParameters) (w : World)
        (diff : GeoJSONSourceDiff) :
  request params = None ->
  (forall text, data params <> Some (JStr text)) ->
  dataDiff params = Some diff ->
  let store := _dataUpdateable (this w) in
  (store = None <-> exists e store', loadGeoJSON params store = Done (Throw e) store')
  /\ (store = None ->
      loadGeoJSON params store = Done (Throw (Error (cannot_update (source params)))) None
      /\ names_source (cannot_update (source params)) (source params)
      /\ _dataUpdateable (this (loadData params w).2) = None)
  /\ (forall st,
         store = Some st ->
         let st' := applySourceDiff st diff (promoteId params) in
         loadGeoJSON params store
         = Done (Return (JObj [("type", JStr "FeatureCollection");
                               ("features", JArr st'.*2)]))
                (Some st')
         /\ _dataUpdateable (this (loadData params w).2) = Some st').
Proof.
  intros Hr Hd Hdiff store.
  assert (E : loadGeoJSON params store = diff_or_fail params store)
    by now apply loadGeoJSON_no_text.
  unfold diff_or_fail in E. rewrite Hdiff in E.
  split; [| split].
  - split.
    + intros Hnone. rewrite E, Hnone. eauto.
    + intros (e & store' & Hthrow). rewrite E in Hthrow.
      destruct store; [discriminate | reflexivity].
  - intros Hnone. rewrite Hnone in E.
    split; [now rewrite Hnone | split; [apply cannot_update_names_source |]].
    eapply (loadData_completed params w (Throw _)). fold store. rewrite Hnone. exact E.
  - intros st Hsome st'. rewrite Hsome in E.
    split; [rewrite Hsome; exact E |].
    eapply (loadData_completed params w (Return _)). fold store. rewrite Hsome. exact E.
Qed.

End StoreFacts.

(** ** Cluster property callbacks *)

Section ClusterFacts.
Context `{Collaborators}.

Lemma set_field_fresh (fs : list (string * JSValue)) (k : string) (v : JSValue) :
  k ∉ fs.*1 -> JS.set_field fs k v = (fs ++ [(k, v)])%list.
Proof.
  induction fs as [|[k' v'] fs IH]; cbn; [reflexivity |].
  intros Hk. apply not_elem_of_cons in Hk as [Hne Hk].
  destruct (String.eqb_spec k' k) as [->|_]; [contradiction |].
  now rewrite IH.
Qed.

(** The tables after the loop, at a name the remaining entries do not
    mention. *)
Lemma expression_tables_skip (cp : ClusterProperties)
      (t : gmap string (CompileResult Compiled) * gmap string (CompileResult Compiled))
      (k : string) :
  k ∉ cp.*1 ->
  let t' := fold_left
              (fun tables entry =>
                 let '(key, (operator, mapExpression)) := entry in
                 (<[key := createExpression mapExpression None]> tables.1,
                  <[key := createExpression (reduce_expression key operator) None]> tables.2))
              cp t in
  t'.1 !! k = t.1 !! k /\ t'.2 !! k = t.2 !! k.
Proof.
  revert t. induction cp as [|[key [operator mapExpression]] cp IH]; intros t Hk; cbn.
  - split; reflexivity.
  - cbn in Hk. apply not_elem_of_cons in Hk as [Hne Hk].
    destruct (IH (<[key := createExpression mapExpression None]> t.1,
                  <[key := createExpression (reduce_expression key operator) None]> t.2) Hk)
      as [E1 E2].
    cbn in E1, E2. rewrite E1, E2.
    split; apply lookup_insert_ne; congruence.
Qed.

Lemma expression_tables_lookup (cp : ClusterProperties)
      (name : string) (operator mapExpression : JSValue) :
  NoDup cp.*1 ->
  (name, (operator, mapExpression)) ∈ cp ->
  (expression_tables cp).1 !! name = Some (createExpression mapExpression None)
  /\ (expression_tables cp).2 !! name
     = Some (createExpression (reduce_expression name operator) None).
Proof.
  unfold expression_tables. generalize (∅ : gmap string (CompileResult Compiled),
                                        ∅ : gmap string (CompileResult Compiled)).
  induction cp as [|[key [op me]] cp IH]; intros t Hnd Hin.
  - now apply elem_of_nil in Hin.
  - cbn in Hnd. apply NoDup_cons in Hnd as [Hfresh Hnd].
    apply elem_of_cons in Hin as [Heq|Hin].
    + injection Heq as -> -> ->. cbn [fold_left].
      destruct (expression_tables_skip cp
                  (<[key := createExpression me None]> t.1,
                   <[key := createExpression (reduce_expression key op) None]> t.2)
                  key Hfresh) as [E1 E2].
      cbn in E1, E2. rewrite E1, E2. split; apply lookup_insert_eq.
    + cbn [fold_left]. now apply IH.
Qed.

Lemma map_loop_all (names : list string) (table : gmap string (CompileResult Compiled))
      (map_of : string -> Compiled) (env : ClosureEnv) (properties : list (string * JSValue)) :
  NoDup names ->
  (forall name, name ∈ names -> name ∉ properties.*1) ->
  (forall name, name ∈ names -> table !! name = Some (Success (map_of name))) ->
  map_loop names table env properties
  = Return (properties ++ mapped names map_of (globals env) (feature_properties env))%list.
Proof.
  revert properties. induction names as [|key names IH]; intros properties Hnd Hfresh Htab.
  - cbn. now rewrite app_nil_r.
  - apply NoDup_cons in Hnd as [Hkey Hnd].
    cbn [map_loop]. rewrite (Htab key) by apply list_elem_of_here.
    cbn [evaluate_slot]. rewrite set_field_fresh by (apply Hfresh, list_elem_of_here).
    rewrite IH; try assumption.
    + unfold mapped. cbn [fmap list_fmap]. now rewrite <- app_assoc.
    + intros name Hin. rewrite fmap_app. cbn.
      intros Hbad. apply elem_of_app in Hbad as [Hbad|Hbad].
      * revert Hbad. apply Hfresh. now apply list_elem_of_further.
      * apply list_elem_of_singleton in Hbad. subst. contradiction.
    + intros name Hin. apply Htab. now apply list_elem_of_further.
Qed.

Lemma reduce_loop_all (names : list string) (table : gmap string (CompileResult Compiled))
      (reduce_of : string -> Compiled) (acc : list (string * JSValue)) (env : ClosureEnv) :
  zoom (globals env) = 0%Z ->
  (forall name, name ∈ names -> table !! name = Some (Success (reduce_of name))) ->
  exists env',
    reduce_loop names table acc env
    = (Return tt, reduced names reduce_of acc (feature_properties env), env')
    /\ zoom (globals env') = 0%Z
    /\ feature_properties env' = feature_properties env.
Proof.
  revert acc env. induction names as [|key names IH]; intros acc env Hz Htab.
  - exists env. cbn. auto.
  - cbn [reduce_loop]. rewrite (Htab key) by apply list_elem_of_here.
    cbn [evaluate_slot globals feature_properties]. rewrite Hz.
    edestruct (IH (JS.set_field acc key
                     (evaluate (reduce_of key)
                        (mkGlobals (default JUndefined (JS.lookup_field acc key)) 0)
                        (feature_of (mkEnv (mkGlobals (default JUndefined
                                                         (JS.lookup_field acc key)) 0)
                                           (feature_properties env)))))
                  (mkEnv (mkGlobals (default JUndefined (JS.lookup_field acc key)) 0)
                         (feature_properties env)))
      as (env' & E & Hz' & Hp').
    + reflexivity.
    + intros name Hin. apply Htab. now apply list_elem_of_further.
    + exists env'. split; [| split; assumption]. exact E.
Qed.

(** C8: with a cluster-property specification and a clustering
    configuration, whose expressions all compile, the configuration
    returned for the index carries a map and a reduce callback.  The map
    callback returns a fresh bag giving, for each output name, the value
    of that name's map expression at zoom 0 on the point's properties.
    The reduce callback goes through the names in key enumeration order:
    it sets the accumulated slot to [accumulatedProperties[name]],
    evaluates the reduce expression on the incoming properties and
    overwrites [accumulatedProperties[name]] with the result.  A reduce
    term that is a bare operator name stands for
    [[operator, ['accumulated'], ['get', name]]]; any other term is used
    as it is. *)
Theorem cluster_callbacks_installed (params : LoadGeoJSONParameters)
        (cp : ClusterProperties) (options : SuperclusterOptions ClusterSettings)
        (map_of reduce_of : string -> Compiled) :
  clusterProperties params = Some cp ->
  superclusterOptions params = Some options ->
  NoDup cp.*1 ->
  (forall name operator mapExpression,
      (name, (operator, mapExpression)) ∈ cp ->
      createExpression mapExpression None = Success (map_of name)
      /\ createExpression (reduce_expression name operator) None = Success (reduce_of name)) ->
  (forall name operator,
      reduce_expression name (JStr operator)
      = JArr [JStr operator; JArr [JStr "accumulated"]; JArr [JStr "get"; JStr name]])
  /\ (forall name term, JS.typeof term <> "string" -> reduce_expression name term = term)
  /\ zoom (globals initial_env) = 0%Z
  /\ exists map_installed reduce_installed,
      getSuperclusterOptions params
      = Some (mkSuperclusterOptions (passthrough options)
                                    (Some map_installed) (Some reduce_installed))
      /\ (forall pointProperties env,
             zoom (globals env) = 0%Z ->
             map_installed pointProperties env
             = (Return (mapped cp.*1 map_of (mkGlobals (accumulated (globals env)) 0)
                               pointProperties),
                mkEnv (globals env) pointProperties))
      /\ (forall accumulatedProperties incomingProperties env,
             zoom (globals env) = 0%Z ->
             exists env',
               reduce_installed accumulatedProperties incomingProperties env
               = (Return tt,
                  reduced cp.*1 reduce_of accumulatedProperties incomingProperties,
                  env')
               /\ zoom (globals env') = 0%Z).
Proof.
  intros Hcp Hopt Hnd Hcompile.
  assert (Hnames : forall name, name ∈ cp.*1 ->
            (expression_tables cp).1 !! name = Some (Success (map_of name))
            /\ (expression_tables cp).2 !! name = Some (Success (reduce_of name))).
  { intros name Hin. apply list_elem_of_fmap in Hin as ([k [op me]] & -> & Hin).
    destruct (expression_tables_lookup cp k op me Hnd Hin) as [E1 E2].
    destruct (Hcompile k op me Hin) as [C1 C2].
    cbn. now rewrite E1, E2, C1, C2. }
  split; [reflexivity | split; [| split; [reflexivity |]]].
  - intros name term Hty. destruct term; try reflexivity. now contradiction Hty.
  - eexists _, _. split; [| split].
    + unfold getSuperclusterOptions. rewrite Hcp, Hopt. reflexivity.
    + intros pointProperties env Hz. unfold map_callback.
      rewrite (map_loop_all _ _ map_of); try assumption.
      * cbn [app globals feature_properties]. do 3 f_equal.
        destruct (globals env) as [a zm]. cbn in Hz. now subst zm.
      * intros name _. cbn. apply not_elem_of_nil.
      * intros name Hin. now apply Hnames.
    + intros acc incoming env Hz. unfold reduce_callback.
      destruct (reduce_loop_all cp.*1 (expression_tables cp).2 reduce_of acc
                  (mkEnv (globals env) incoming) Hz) as (env' & E & Hz' & _).
      * intros name Hin. now apply Hnames.
      * exists env'. split; [exact E | exact Hz'].
Qed.

End ClusterFacts.

(** ** Superseding and tearing down a pending load *)

Section AbandonFacts.
Context `{Collaborators}.

Lemma start_load_promises (params : LoadGeoJSONParameters) (w : World) :
  promises (start_load params w).2 = (promises w ++ [None])%list.
Proof.
  unfold start_load. cbn [this _dataUpdateable].
  destruct (loadGeoJSON params (_dataUpdateable (this w))) as [r|c store];
    reflexivity.
Qed.

Lemma start_load_history (params : LoadGeoJSONParameters) (w : World) :
  history (start_load params w).2
  = (history w ++ [Register (length (promises w)) (length (controllers w))])%list.
Proof.
  unfold start_load. cbn [this _dataUpdateable].
  destruct (loadGeoJSON params (_dataUpdateable (this w))) as [r|c store];
    reflexivity.
Qed.

Lemma start_load_controllers (params : LoadGeoJSONParameters) (w : World) :
  controllers (start_load params w).2 = (controllers w ++ [false])%list.
Proof.
  unfold start_load. cbn [this _dataUpdateable].
  destruct (loadGeoJSON params (_dataUpdateable (this w))) as [r|c store];
    reflexivity.
Qed.

Lemma abandon_pending_promises (w : World) :
  promises (abandon_pending w)
  = match _pendingPromise (this w) with
    | Some p => settle p (Fulfilled abandoned) (promises w)
    | None => promises w
    end.
Proof.
  unfold abandon_pending.
  destruct (_pendingRequest (this w)); cbn;
    destruct (_pendingPromise (this w)); reflexivity.
Qed.

Lemma on_data_promises (params : LoadGeoJSONParameters) (perf : option RequestParameters)
      (p : nat) (data : JSValue) (w : World) :
  exists s, promises (on_data params perf p data w) = settle p s (promises w).
Proof.
  unfold on_data.
  destruct (negb (JS.truthy data)); [eexists; reflexivity |].
  destruct (negb (String.eqb (JS.typeof data) "object")); [eexists; reflexivity |].
  destruct (filter_and_index params (rewind data)); eexists; reflexivity.
Qed.

(** No event changes a promise that is settled. *)
Lemma step_keeps_settled (ev : Event) (w w' : World) (p : nat) (s : Settlement) :
  step ev w = Some w' ->
  promises w !! p = Some (Some s) -> promises w' !! p = Some (Some s).
Proof.
  intros Hstep Hp. destruct ev as [params| | |q data|q err]; cbn in Hstep.
  - injection Hstep as <-. unfold loadData.
    rewrite start_load_promises, abandon_pending_promises.
    apply lookup_app_l_Some.
    destruct (_pendingPromise (this w)); [now apply settle_keeps | exact Hp].
  - injection Hstep as <-. unfold removeSource.
    destruct (_pendingPromise (this w)); [cbn; now apply settle_keeps | exact Hp].
  - destruct (microtasks w) as [|[params perf q data|q err] rest]; [discriminate | |];
      injection Hstep as <-; cbn [run_job].
    + match goal with |- promises (on_data ?a ?b ?c ?d ?e) !! _ = _ =>
        destruct (on_data_promises a b c d e) as [s' ->] end.
      cbn. now apply settle_keeps.
    + cbn. now apply settle_keeps.
  - destruct (awaiting w !! q); [| discriminate]. injection Hstep as <-. exact Hp.
  - destruct (awaiting w !! q); [| discriminate]. injection Hstep as <-. exact Hp.
Qed.

Lemma run_keeps_settled (evs : list Event) (w w' : World) (p : nat) (s : Settlement) :
  run evs w = Some w' ->
  promises w !! p = Some (Some s) -> promises w' !! p = Some (Some s).
Proof.
  revert w. induction evs as [|ev evs IH]; intros w Hrun Hp; cbn in Hrun.
  - now injection Hrun as <-.
  - destruct (step ev w) as [w1|] eqn:Hstep; [| discriminate].
    eapply IH; [exact Hrun |]. eapply step_keeps_settled; eassumption.
Qed.

Lemma outcome_settled (w : World) (p : nat) (s : Settlement) :
  outcome w p = Some s <-> promises w !! p = Some (Some s).
Proof.
  unfold outcome. destruct (promises w !! p) as [[s'|]|]; cbn; split; congruence.
Qed.

(** X18: when a load is registered on the source, with its callback [p]
    in [_pendingPromise] and its token [c] in [_pendingRequest],
    [loadData] aborts [c], calls [p] with [{abandoned: true}] and only
    then registers the new load; [removeSource] calls [p] with
    [{abandoned: true}] and nothing else.  If the promise behind [p] was
    still unsettled it is fulfilled with [{abandoned: true}] by either
    call and stays so whatever happens afterwards; neither call ever
    rejects it or changes a settlement it already had. *)
Theorem pending_load_abandoned (params : LoadGeoJSONParameters) (w : World) (p c : nat) :
  _pendingPromise (this w) = Some p ->
  _pendingRequest (this w) = Some c ->
  history (loadData params w).2
  = (history w ++ [Abort c; Resolve p abandoned;
                   Register (length (promises w)) (length (controllers w))])%list
  /\ (c < length (controllers w) -> controllers (loadData params w).2 !! c = Some true)
  /\ history (removeSource w) = (history w ++ [Resolve p abandoned])%list
  /\ (pending w p ->
      outcome (loadData params w).2 p = Some (Fulfilled abandoned)
      /\ outcome (removeSource w) p = Some (Fulfilled abandoned)
      /\ forall evs w',
          run evs (loadData params w).2 = Some w' \/ run evs (removeSource w) = Some w' ->
          outcome w' p = Some (Fulfilled abandoned))
  /\ (forall s, outcome w p = Some s ->
      outcome (loadData params w).2 p = Some s /\ outcome (removeSource w) p = Some s).
Proof.
  intros Hp Hc.
  assert (Ha : abandon_pending w = resolve p abandoned (abort c w)).
  { unfold abandon_pending. rewrite Hc. cbn. now rewrite Hp. }
  assert (Hr : removeSource w = resolve p abandoned w).
  { unfold removeSource. now rewrite Hp. }
  assert (Hload : pending w p ->
                  promises (loadData params w).2 !! p = Some (Some (Fulfilled abandoned))).
  { intros Hpend. unfold loadData. rewrite start_load_promises, Ha. cbn.
    apply lookup_app_l_Some. now apply settle_pending. }
  assert (Hrem : pending w p ->
                 promises (removeSource w) !! p = Some (Some (Fulfilled abandoned))).
  { intros Hpend. rewrite Hr. cbn. now apply settle_pending. }
  split; [| split; [| split; [| split]]].
  - unfold loadData. rewrite start_load_history, Ha. cbn.
    rewrite settle_length, length_insert. now rewrite <- !app_assoc.
  - intros Hlt. unfold loadData. rewrite start_load_controllers, Ha. cbn.
    apply lookup_app_l_Some. now apply list_lookup_insert_eq.
  - now rewrite Hr.
  - intros Hpend. split; [| split].
    + apply outcome_settled. now apply Hload.
    + apply outcome_settled. now apply Hrem.
    + intros evs w' [Hrun|Hrun]; apply outcome_settled;
        (eapply run_keeps_settled; [exact Hrun |]); auto.
  - intros s Hs. apply outcome_settled in Hs. split; apply outcome_settled.
    + unfold loadData. rewrite start_load_promises, Ha. cbn.
      apply lookup_app_l_Some. now apply settle_keeps.
    + rewrite Hr. cbn. now apply settle_keeps.
Qed.

End AbandonFacts.

(** ** Pending-load bookkeeping when loads overlap or fail *)

Section BookkeepingFacts.
Context `{Collaborators}.

(** The reaction to the data clears both fields before anything else, on
    every one of its paths. *)
Lemma on_data_clears_pending (params : LoadGeoJSONParameters)
      (perf : option RequestParameters) (p : nat) (data : JSValue) (w : World) :
  _pendingPromise (this (on_data params perf p data w)) = None
  /\ _pendingRequest (this (on_data params perf p data w)) = None.
Proof.
  unfold on_data.
  destruct (negb (JS.truthy data)); [split; reflexivity |].
  destruct (negb (String.eqb (JS.typeof data) "object")); [split; reflexivity |].
  destruct (filter_and_index params (rewind data)); split; reflexivity.
Qed.

(** It clears them whichever call they belong to. *)
Lemma on_data_clears_any (params : LoadGeoJSONParameters)
      (perf : option RequestParameters) (p q : nat) (data : JSValue) (w : World) :
  _pendingPromise (this w) = Some q ->
  _pendingPromise (this (on_data params perf p data w)) = None.
Proof. intros _. apply on_data_clears_pending. Qed.

(** The reaction to a failed [loadGeoJSON] leaves the source as it is. *)
Lemma on_error_keeps_pending (p : nat) (err : JSError) (w : World) :
  this (on_error p err w) = this w.
Proof. reflexivity. Qed.

Lemma on_data_controllers (params : LoadGeoJSONParameters)
      (perf : option RequestParameters) (p : nat) (data : JSValue) (w : World) :
  controllers (on_data params perf p data w) = controllers w.
Proof.
  unfold on_data.
  destruct (negb (JS.truthy data)); [reflexivity |].
  destruct (negb (String.eqb (JS.typeof data) "object")); [reflexivity |].
  destruct (filter_and_index params (rewind data)); reflexivity.
Qed.

Lemma abandon_pending_controllers (w : World) :
  length (controllers (abandon_pending w)) = length (controllers w).
Proof.
  unfold abandon_pending.
  destruct (_pendingRequest (this w)); cbn;
    destruct (_pendingPromise (this w)); cbn; now rewrite ?length_insert.
Qed.

Lemma start_load_registers (params : LoadGeoJSONParameters) (w : World) :
  _pendingPromise (this (start_load params w).2) = Some (length (promises w))
  /\ _pendingRequest (this (start_load params w).2) = Some (length (controllers w)).
Proof.
  unfold start_load. cbn [this _dataUpdateable].
  destruct (loadGeoJSON params (_dataUpdateable (this w))) as [r|c store];
    split; reflexivity.
Qed.

Lemma step_registered_together (ev : Event) (w w' : World) :
  step ev w = Some w' -> registered_together w -> registered_together w'.
Proof.
  unfold registered_together. intros Hstep [Hlen Hfields].
  destruct ev as [params| | |q data|q err]; cbn in Hstep.
  - injection Hstep as <-. unfold loadData.
    destruct (start_load_registers params (abandon_pending w)) as [-> ->].
    rewrite start_load_promises, start_load_controllers, !length_app.
    rewrite abandon_pending_length, abandon_pending_controllers. cbn.
    split; [lia | split; [exact Hlen | lia]].
  - injection Hstep as <-. unfold removeSource.
    destruct (_pendingPromise (this w)) as [p|] eqn:Ep.
    + cbn. rewrite settle_length, Ep. split; assumption.
    + rewrite Ep. split; assumption.
  - destruct (microtasks w) as [|[params perf q data|q err] rest]; [discriminate | |];
      injection Hstep as <-; cbn [run_job].
    + match goal with |- context [on_data ?a ?b ?c ?d ?e] =>
        destruct (on_data_clears_pending a b c d e) as [-> ->];
        destruct (on_data_promises a b c d e) as [s' ->];
        rewrite (on_data_controllers a b c d e) end.
      cbn. rewrite settle_length. auto.
    + cbn. rewrite settle_length. auto.
  - destruct (awaiting w !! q); [| discriminate]. injection Hstep as <-. cbn. auto.
  - destruct (awaiting w !! q); [| discriminate]. injection Hstep as <-. cbn. auto.
Qed.

(** In every state the worker can reach the two fields are set and
    cleared together. *)
Lemma reachable_registered_together (evs : list Event) (w : World) :
  run evs init = Some w -> registered_together w.
Proof.
  assert (Hgen : forall evs w0 w1,
             run evs w0 = Some w1 -> registered_together w0 -> registered_together w1).
  { clear. intros evs. induction evs as [|ev evs IH]; intros w0 w1 Hrun Hw0; cbn in Hrun.
    - now injection Hrun as <-.
    - destruct (step ev w0) as [w'|] eqn:Hstep; [| discriminate].
      eapply IH; [exact Hrun |]. eapply step_registered_together; eassumption. }
  intros Hrun. eapply Hgen; [exact Hrun |].
  split; [reflexivity | exact I].
Qed.

End BookkeepingFacts.

(** ** Runs of the event loop on the sample collaborators *)

Section Runs.
#[local] Existing Instance Sample.collaborators.

(** C2: two runs in which the index of the last load to start is
    replaced by that of an earlier load.  In the first, the transport
    honours cancellation: load A (literal data) and load B (a request)
    start back to back, A's reaction then clears the bookkeeping that by
    now is B's, so load C finds nothing pending, does not abort B, and
    completes; B's answer arrives afterwards and its index replaces C's.
    In the second, load A (a request) is abandoned by load B, B
    completes, and an answer for A that the transport still delivers
    replaces B's index. *)
Theorem earlier_load_overwrites_index :
  let literal := Sample.with_data Sample.empty_collection_text in
  let fetched := FeatureCollection [Sample.point 7 "city"] in
  let until_C_completes :=
    [CallLoadData literal; CallLoadData (Sample.with_request "/b.json"); RunMicrotask;
     CallLoadData literal; RunMicrotask] in
  let until_B_completes :=
    [CallLoadData (Sample.with_request "/a.json"); CallLoadData literal; RunMicrotask] in
  ((fun w => (_geoJSONIndex (this w), outcome w 2, outcome w 1, controllers w !! 1))
     <$> run_honouring until_C_completes init
   = Some (Some (Sample.mkRecorded false (FeatureCollection [])),
           Some (Fulfilled (completed None)), None, Some false)
   /\ (fun w => (_geoJSONIndex (this w), promises w, controllers w, microtasks w))
        <$> run_honouring (until_C_completes ++ [Responds 1 fetched; RunMicrotask]) init
      = Some (Some (Sample.mkRecorded false fetched),
              [Some (Fulfilled abandoned); Some (Fulfilled (completed None));
               Some (Fulfilled (completed None))],
              [true; false; false], []))
  /\ ((fun w => (_geoJSONIndex (this w), outcome w 1, outcome w 0))
        <$> run until_B_completes init
      = Some (Some (Sample.mkRecorded false (FeatureCollection [])),
              Some (Fulfilled (completed None)), Some (Fulfilled abandoned))
      /\ (fun w => (_geoJSONIndex (this w), promises w, microtasks w))
           <$> run (until_B_completes ++ [Responds 0 fetched; RunMicrotask]) init
         = Some (Some (Sample.mkRecorded false fetched),
                 [Some (Fulfilled abandoned); Some (Fulfilled (completed None))], [])).
Proof. vm_compute. repeat split. Qed.

(** C1: a load in flight that is neither aborted nor abandoned.  Load A
    (literal data) and load B (a request) start back to back; A's
    reaction then deletes the two fields, which by now are B's.  B is
    unsettled and still waiting on the transport, and nothing is
    registered.  A further [loadData] finds nothing to abort or abandon
    and registers itself; [removeSource] does nothing at all, also after
    that further load has completed.  In each case B's promise stays
    unsettled and its controller un-aborted. *)
Theorem unregistered_load_is_left_waiting :
  let literal := Sample.with_data Sample.empty_collection_text in
  let start :=
    [CallLoadData literal; CallLoadData (Sample.with_request "/b.json"); RunMicrotask] in
  let observe (w : World) :=
    (outcome w 1, frame_signal <$> awaiting w !! 1, controllers w !! 1,
     _pendingPromise (this w), _pendingRequest (this w), history w) in
  let so_far := [Register 0 0; Abort 0; Resolve 0 abandoned; Register 1 1;
                 Resolve 0 (completed None)] in
  observe <$> run_honouring start init
  = Some (None, Some 1, Some false, None, None, so_far)
  /\ observe <$> run_honouring (start ++ [CallLoadData literal]) init
     = Some (None, Some 1, Some false, Some 2, Some 2, (so_far ++ [Register 2 2])%list)
  /\ observe <$> run_honouring (start ++ [CallRemoveSource]) init
     = Some (None, Some 1, Some false, None, None, so_far)
  /\ observe <$> run_honouring (start ++ [CallLoadData literal; RunMicrotask;
                                         CallRemoveSource]) init
     = Some (None, Some 1, Some false, None, None,
             (so_far ++ [Register 2 2; Resolve 2 (completed None)])%list).
Proof. vm_compute. repeat split. Qed.

(** C3: a load whose [loadGeoJSON] throws is rejected with both fields
    still set, and the next [loadData] acts on them: it aborts the old
    controller and calls the settled promise's callback. *)
Theorem failed_load_keeps_pending_state :
  let malformed := Sample.with_data "not json" in
  let message := "Input data given to 's' is not a valid GeoJSON object." in
  (fun w => (outcome w 0, _pendingPromise (this w), _pendingRequest (this w), microtasks w))
    <$> run [CallLoadData malformed; RunMicrotask] init
  = Some (Some (Rejected (Error message)), Some 0, Some 0, [])
  /\ history
       <$> run [CallLoadData malformed; RunMicrotask;
                CallLoadData (Sample.with_data Sample.empty_collection_text)] init
     = Some [Register 0 0; Reject 0 (Error message);
             Abort 0; Resolve 0 abandoned; Register 1 1].
Proof. vm_compute. split; reflexivity. Qed.

(** C5 as stated fails twice.  A single feature, delivered by the
    transport, is an object without the shape of a collection; the claim
    has it rejected as invalid input, and the load completes with an
    index built from it.  The number 0 is not an object and is neither
    null nor undefined; the claim has it rejected as invalid input, and
    it is rejected as missing data. *)
Lemma validation_counterexample :
  let feature := Sample.point 7 "city" in
  let load := CallLoadData (Sample.with_request "/a.json") in
  let invalid := Rejected (Error (invalid_input (Some "s"))) in
  (feature_collection_shape feature = false
   /\ (fun w => (outcome w 0, _geoJSONIndex (this w)))
        <$> run [load; Responds 0 feature; RunMicrotask] init
      = Some (Some (Fulfilled (completed None)), Some (Sample.mkRecorded false feature))
   /\ (fun w => outcome w 0) <$> run [load; Responds 0 feature; RunMicrotask] init
      <> Some (Some invalid))
  /\ (JS.nullish (JNum 0) = false
      /\ JS.typeof (JNum 0) = "number"
      /\ (fun w => outcome w 0) <$> run [load; Responds 0 (JNum 0); RunMicrotask] init
         = Some (Some (Rejected (Error "No data was returned")))
      /\ (fun w => outcome w 0) <$> run [load; Responds 0 (JNum 0); RunMicrotask] init
         <> Some (Some invalid)).
Proof.
  vm_compute. split; [split; [| split] | split; [| split; [| split]]];
    try reflexivity; discriminate.
Qed.

(** C6 as stated fails on the property type: the specification the
    filter is compiled against is data-driven, not non-data-driven.  A
    compiler that reports the specification it receives shows it in the
    rejection message. *)
Lemma filter_spec_counterexample :
  property_type filter_spec = "data-driven"
  /\ ~ (property_type filter_spec <> "data-driven")
  /\ @apply_filter Sample.probe (Sample.filtered Sample.city_filter) (FeatureCollection [])
     = Throw (Error "property-type: data-driven, type: boolean").
Proof.
  split; [reflexivity | split; [| vm_compute; reflexivity]].
  intros Hne. now apply Hne.
Qed.

Lemma pending_load_abandoned_witness :
  let w := (loadData (Sample.with_request "/a.json") init).2 in
  let next := Sample.with_data Sample.empty_collection_text in
  history (loadData next w).2
  = [Register 0 0; Abort 0; Resolve 0 abandoned; Register 1 1]
  /\ controllers (loadData next w).2 !! 0 = Some true
  /\ history (removeSource w) = [Register 0 0; Resolve 0 abandoned]
  /\ outcome (loadData next w).2 0 = Some (Fulfilled abandoned)
  /\ outcome (removeSource w) 0 = Some (Fulfilled abandoned).
Proof.
  intros w next.
  destruct (pending_load_abandoned next w 0 0 eq_refl eq_refl)
    as (Hhist & Hctrl & Hrem & Hpend & _).
  destruct (Hpend eq_refl) as (Hload & Hremove & _).
  split; [exact Hhist | split; [apply Hctrl; vm_compute; lia | split; [exact Hrem |]]].
  split; [exact Hload | exact Hremove].
Defined.

Lemma loadGeoJSON_priority_witness :
  let r := mkRequest "/a.json" false in
  let text := JStr Sample.empty_collection_text in
  let store := Some [(JNum 7, Sample.point 7 "city")] in
  loadGeoJSON (Sample.inputs (Some r) (Some text) (Some [JNum 7])) store = Await r
  /\ loadGeoJSON (Sample.inputs None (Some text) (Some [JNum 7])) store
     = Done (Return (FeatureCollection [])) (Some [])
  /\ loadGeoJSON (Sample.inputs None None (Some [JNum 7])) store
     = Done (Return (FeatureCollection [])) (Some [])
  /\ loadGeoJSON (Sample.inputs None None (Some [JNum 7])) None
     = Done (Throw (Error "Cannot update existing geojson data in s")) None
  /\ loadGeoJSON (Sample.inputs None None None) store
     = Done (Throw (Error "Input data given to 's' is not a valid GeoJSON object.")) store.
Proof.
  intros r text store. split; [| split; [| split; [| split]]].
  - exact (proj1 (loadGeoJSON_priority
                    (Sample.inputs (Some r) (Some text) (Some [JNum 7])) store)
                 r eq_refl).
  - exact (proj1 (proj2 (loadGeoJSON_priority
                           (Sample.inputs None (Some text) (Some [JNum 7])) store))
                 Sample.empty_collection_text eq_refl eq_refl).
  - exact (proj1 (proj2 (proj2 (loadGeoJSON_priority
                                  (Sample.inputs None None (Some [JNum 7])) store)))
                 [JNum 7] [(JNum 7, Sample.point 7 "city")] eq_refl
                 ltac:(intros t; cbn; discriminate) eq_refl eq_refl).
  - exact (proj1 (proj1 (proj2 (proj2 (proj2 (loadGeoJSON_priority
                                                (Sample.inputs None None (Some [JNum 7]))
                                                None))))
                        [JNum 7] eq_refl ltac:(intros t; cbn; discriminate)
                        eq_refl eq_refl)).
  - exact (proj1 (proj2 (proj2 (proj2 (proj2 (loadGeoJSON_priority
                                                (Sample.inputs None None None) store))))
                        eq_refl ltac:(intros t; cbn; discriminate) eq_refl)).
Defined.

Lemma non_string_data_ignored_witness :
  let parsed_already := FeatureCollection [Sample.point 7 "city"] in
  let store := Some [(JNum 7, Sample.point 7 "city")] in
  loadGeoJSON (Sample.inputs None (Some parsed_already) None) store
  = Done (Throw (Error "Input data given to 's' is not a valid GeoJSON object.")) store
  /\ loadGeoJSON (Sample.inputs None (Some parsed_already) (Some [JNum 7])) store
     = Done (Return (FeatureCollection [])) (Some []).
Proof.
  intros parsed_already store. split.
  - exact (proj1 (proj1 (proj2 (proj2 (non_string_data_ignored
                                         (Sample.inputs None (Some parsed_already) None)
                                         store parsed_already eq_refl eq_refl
                                         ltac:(cbn; discriminate))))
                        eq_refl)).
  - exact (proj1 (proj2 (non_string_data_ignored
                           (Sample.inputs None (Some parsed_already) (Some [JNum 7]))
                           store parsed_already eq_refl eq_refl
                           ltac:(cbn; discriminate)))).
Defined.

Lemma loadGeoJSONTile_tight_witness :
  let index : option (@Index Sample.collaborators) :=
    Some (Sample.mkRecorded false
            (FeatureCollection [Sample.point 1 "city"; Sample.point 2 "town"])) in
  loadGeoJSONTile None (mkCanonical 0 0 0) = Return None
  /\ loadGeoJSONTile index (mkCanonical 1 0 0) = Return None
  /\ exists r, loadGeoJSONTile index (mkCanonical 0 0 0) = Return (Some r)
               /\ rawData r = [Byte.x2a; Byte.x2a].
Proof.
  intros index.
  destruct (loadGeoJSONTile_tight index (mkCanonical 0 0 0)) as (_ & _ & Hsome).
  destruct (Hsome _ _ eq_refl eq_refl) as (pbf & Hres & _ & _ & Hbytes & _).
  split; [apply (proj1 (loadGeoJSONTile_tight None (mkCanonical 0 0 0))); reflexivity |].
  split; [apply (proj1 (proj2 (loadGeoJSONTile_tight index (mkCanonical 1 0 0))) _ eq_refl);
          reflexivity |].
  eexists. split; [exact Hres | exact Hbytes].
Defined.

Lemma on_data_validation_witness :
  let params := Sample.with_request "/a.json" in
  let w := (loadData params init).2 in
  outcome (on_data params None 0 JNull w) 0 = Some (Rejected (Error "No data was returned"))
  /\ outcome (on_data params None 0 (JNum 5) w) 0
     = Some (Rejected (Error "Input data given to 's' is not a valid GeoJSON object."))
  /\ outcome (on_data params None 0 (Sample.point 7 "city") w) 0
     = Some (Fulfilled (completed None)).
Proof.
  intros params w.
  assert (Hp : pending w 0) by reflexivity.
  split; [| split].
  - exact (proj2 (proj1 (on_data_validation params None 0 JNull w Hp) eq_refl)).
  - exact (proj1 (proj2 (proj1 (proj2 (on_data_validation params None 0 (JNum 5) w Hp))
                               eq_refl ltac:(cbn; discriminate)))).
  - rewrite (proj2 (proj2 (on_data_validation params None 0 (Sample.point 7 "city") w Hp))
                   eq_refl eq_refl).
    reflexivity.
Defined.

Lemma filter_compiled_and_applied_witness :
  let collection := FeatureCollection [Sample.point 1 "city"; Sample.point 2 "town"] in
  let w := (loadData (Sample.with_request "/a.json") init).2 in
  filter_and_index (Sample.filtered Sample.city_filter) collection
  = Return (Sample.mkRecorded false (FeatureCollection [Sample.point 1 "city"]))
  /\ outcome (on_data (Sample.filtered [JStr "nope"]) None 0 collection w) 0
     = Some (Rejected (Error "[0]: Unknown expression nope")).
Proof.
  intros collection w.
  assert (Hp : pending w 0) by reflexivity.
  split.
  - exact (proj1 (proj2 (proj2 (filter_compiled_and_applied
                                  (Sample.filtered Sample.city_filter) None 0
                                  collection w Sample.city_filter
                                  eq_refl Hp eq_refl eq_refl))
                        (JArr Sample.city_filter)
                        [Sample.point 1 "city"; Sample.point 2 "town"] eq_refl eq_refl)).
  - exact (proj1 (proj2 (filter_compiled_and_applied
                           (Sample.filtered [JStr "nope"]) None 0 collection w
                           [JStr "nope"] eq_refl Hp eq_refl eq_refl))
                 [mkParsingError "[0]" "Unknown expression nope"] eq_refl).
Defined.

Lemma cluster_callbacks_installed_witness :
  let cp : ClusterProperties := [("count", (JStr "+", JArr [JStr "get"; JStr "count"]))] in
  let params : @LoadGeoJSONParameters Sample.collaborators :=
    mkParams (Some "s") true None (Some (mkSuperclusterOptions tt None None)) (Some cp)
             None None None (Some (JStr Sample.empty_collection_text)) None in
  let point_properties := JObj [("count", JNum 1)] in
  exists map_installed reduce_installed,
    getSuperclusterOptions params
    = Some (mkSuperclusterOptions tt (Some map_installed) (Some reduce_installed))
    /\ (map_installed point_properties initial_env).1 = Return [("count", JNum 1)]
    /\ (reduce_installed [("count", JNum 1)] point_properties initial_env).1
       = (Return tt, [("count", JNum 2)]).
Proof.
  intros cp params point_properties.
  destruct (cluster_callbacks_installed
              params cp (mkSuperclusterOptions tt None None)
              (fun _ => JArr [JStr "get"; JStr "count"])
              (fun name => reduce_expression name (JStr "+"))
              eq_refl eq_refl)
    as (_ & _ & _ & map_installed & reduce_installed & Hopts & Hmap & Hreduce).
  - apply NoDup_singleton.
  - intros name operator mapExpression Hin.
    apply list_elem_of_singleton in Hin. injection Hin as -> -> ->.
    split; reflexivity.
  - exists map_installed, reduce_installed.
    split; [exact Hopts | split].
    + rewrite (Hmap point_properties initial_env eq_refl). reflexivity.
    + destruct (Hreduce [("count", JNum 1)] point_properties initial_env eq_refl)
        as (env' & -> & _).
      reflexivity.
Defined.

End Runs.

(** * Further properties of the worker *)

(** ** What a reaction does *)

Section ReactionFacts.
Context `{Collaborators}.

Lemma settle_not_pending (q : nat) (s : Settlement) (ps : list (option Settlement)) :
  settle q s ps !! q <> Some None.
Proof.
  unfold settle. destruct (ps !! q) as [[s0|]|] eqn:E; try congruence.
  rewrite list_lookup_insert_eq by (now apply lookup_lt_Some in E). discriminate.
Qed.

Lemma settle_pending_inv (q p : nat) (s : Settlement) (ps : list (option Settlement)) :
  settle q s ps !! p = Some None -> ps !! p = Some None.
Proof.
  intros E. destruct (decide (q = p)) as [->|Hne].
  - now apply settle_not_pending in E.
  - now rewrite settle_other in E.
Qed.

Lemma settle_allocated (q : nat) (s : Settlement) (ps : list (option Settlement)) :
  q < length ps -> exists s', settle q s ps !! q = Some (Some s').
Proof.
  intros Hlt. destruct (lookup_lt_is_Some_2 ps q Hlt) as [[s0|] E].
  - exists s0. now rewrite (settle_settled _ _ s0).
  - exists s. now apply settle_pending.
Qed.

(** The reaction to the data ends in exactly one call: [reject], with
    the source cleared of its pending fields and otherwise as it was, or
    [resolve] with a result, after the new index is in place and
    [loaded] is emptied. *)
Lemma on_data_cases (params : LoadGeoJSONParameters) (perf : option RequestParameters)
      (p : nat) (data : JSValue) (w : World) :
  (exists e, on_data params perf p data w = reject p e (clear_pending w))
  \/ (exists idx,
        JS.truthy data = true /\ JS.typeof data = "object"
        /\ filter_and_index params (rewind data) = Return idx
        /\ on_data params perf p data w
           = resolve p (completed (timing_result params perf))
               (with_this (fun s => mkSource (_pendingPromise s) (_pendingRequest s)
                                      (Some idx) (_dataUpdateable s) [])
                          (clear_pending w))).
Proof.
  unfold on_data.
  destruct (JS.truthy data) eqn:Ht; cbn [negb]; [| left; eauto].
  destruct (String.eqb_spec (JS.typeof data) "object") as [Hty|Hty]; cbn [negb];
    [| left; eauto].
  destruct (filter_and_index params (rewind data)) as [idx|e] eqn:Hfi; [| left; eauto].
  right. exists idx. auto.
Qed.

(** X1: every path through a reaction settles the promise of its call.
    If the promise was still unsettled it is now rejected or fulfilled
    with a result, never with [{abandoned: true}]; a promise settled
    before keeps its settlement. *)
Theorem reaction_settles_promise (j : Job) (w : World) :
  job_promise j < length (promises w) ->
  (exists s, outcome (run_job j w) (job_promise j) = Some s)
  /\ (pending w (job_promise j) ->
      exists s, outcome (run_job j w) (job_promise j) = Some s
                /\ s <> Fulfilled abandoned)
  /\ (forall s, outcome w (job_promise j) = Some s ->
      outcome (run_job j w) (job_promise j) = Some s).
Proof.
  intros Hlt.
  assert (Hs : exists s, promises (run_job j w) = settle (job_promise j) s (promises w)
                         /\ s <> Fulfilled abandoned).
  { destruct j as [params perf p data|p err]; cbn [run_job job_promise].
    - destruct (on_data_cases params perf p data w) as [[e ->]|(idx & _ & _ & _ & ->)];
        eexists; (split; [reflexivity | discriminate]).
    - eexists; (split; [reflexivity | discriminate]). }
  destruct Hs as (s & Hs & Hne). split; [| split].
  - destruct (settle_allocated (job_promise j) s (promises w) Hlt) as [s' E].
    exists s'. apply outcome_settled. now rewrite Hs.
  - intros Hp. exists s. split; [| exact Hne].
    apply outcome_settled. rewrite Hs. now apply settle_pending.
  - intros s0 Hs0. apply outcome_settled in Hs0. apply outcome_settled.
    rewrite Hs. now apply settle_keeps.
Qed.


End ReactionFacts.

(** ** Invariants of the event loop *)

Section LoopInvariants.
Context `{Collaborators}.

Lemma run_invariant (I : World -> Prop) :
  (forall ev w w', step ev w = Some w' -> I w -> I w') ->
  forall evs w w', run evs w = Some w' -> I w -> I w'.
Proof.
  intros Hstep evs. induction evs as [|ev evs IH]; intros w w' Hrun Hw; cbn in Hrun.
  - now injection Hrun as <-.
  - destruct (step ev w) as [w1|] eqn:E; [| discriminate].
    eapply IH; [exact Hrun |]. eapply Hstep; eassumption.
Qed.

Lemma abandon_pending_awaiting (w : World) : awaiting (abandon_pending w) = awaiting w.
Proof.
  unfold abandon_pending.
  destruct (_pendingRequest (this w)); cbn;
    destruct (_pendingPromise (this w)); reflexivity.
Qed.

Lemma on_data_awaiting (params : LoadGeoJSONParameters) (perf : option RequestParameters)
      (p : nat) (data : JSValue) (w : World) :
  awaiting (on_data params perf p data w) = awaiting w
  /\ microtasks (on_data params perf p data w) = microtasks w.
Proof.
  destruct (on_data_cases params perf p data w) as [[e ->]|(idx & _ & _ & _ & ->)];
    split; reflexivity.
Qed.

Lemma run_job_promises (j : Job) (w : World) :
  exists s, promises (run_job j w) = settle (job_promise j) s (promises w).
Proof.
  destruct j as [params perf p data|p err]; cbn [run_job job_promise].
  - apply on_data_promises.
  - eexists. reflexivity.
Qed.

Lemma run_job_queues (j : Job) (w : World) :
  awaiting (run_job j w) = awaiting w /\ microtasks (run_job j w) = microtasks w.
Proof.
  destruct j as [params perf p data|p err]; cbn [run_job].
  - apply on_data_awaiting.
  - split; reflexivity.
Qed.

(** What [start_load] adds for the promise it makes, and that it drops
    nothing that was there. *)
Lemma start_load_accounts (params : LoadGeoJSONParameters) (w : World) :
  (is_Some (awaiting (start_load params w).2 !! length (promises w))
   \/ Exists (fun j => job_promise j = length (promises w))
             (microtasks (start_load params w).2))
  /\ (forall q, is_Some (awaiting w !! q) -> is_Some (awaiting (start_load params w).2 !! q))
  /\ (forall P, Exists P (microtasks w) -> Exists P (microtasks (start_load params w).2)).
Proof.
  unfold start_load. cbn [this _dataUpdateable].
  destruct (loadGeoJSON params (_dataUpdateable (this w))) as [r|c store]; cbn.
  - split; [left; rewrite lookup_insert_eq; eauto | split; [| auto]].
    intros q Hq. rewrite lookup_insert. case_decide; eauto.
  - split; [right | split; [auto |]].
    + apply Exists_app. right. constructor. destruct c; reflexivity.
    + intros P HP. apply Exists_app. now left.
Qed.

Lemma step_accounted (ev : Event) (w w' : World) :
  step ev w = Some w' -> accounted w -> accounted w'.
Proof.
  intros Hstep Hacc p Hp. unfold pending in Hp.
  destruct ev as [params| | |q data|q err]; cbn in Hstep.
  - injection Hstep as <-. unfold loadData in *.
    assert (Hacc0 : accounted (abandon_pending w)).
    { intros q Hq. unfold pending in Hq. rewrite abandon_pending_promises in Hq.
      rewrite abandon_pending_awaiting, abandon_pending_microtasks. apply Hacc.
      destruct (_pendingPromise (this w)); [eapply settle_pending_inv; eauto | exact Hq]. }
    destruct (start_load_accounts params (abandon_pending w)) as (Hnew & Hfr & Hq).
    rewrite start_load_promises in Hp.
    destruct (decide (p < length (promises (abandon_pending w)))) as [Hlt|Hge].
    + rewrite lookup_app_l in Hp by exact Hlt.
      destruct (Hacc0 p Hp) as [Hf|Hj]; [left; now apply Hfr | right; now apply Hq].
    + assert (p = length (promises (abandon_pending w))) as ->.
      { apply lookup_lt_Some in Hp. rewrite length_app in Hp. cbn in Hp. lia. }
      exact Hnew.
  - injection Hstep as <-. unfold removeSource in *.
    destruct (_pendingPromise (this w)) as [q|]; [| now apply Hacc].
    cbn in *. apply Hacc. eapply settle_pending_inv; eauto.
  - destruct (microtasks w) as [|j rest] eqn:Hq; [discriminate |].
    injection Hstep as <-.
    destruct (run_job_promises j (mkWorld (this w) (promises w) (controllers w)
                                          (awaiting w) rest (history w))) as [s Hs].
    destruct (run_job_queues j (mkWorld (this w) (promises w) (controllers w)
                                        (awaiting w) rest (history w))) as [Ha Hm].
    rewrite Hs in Hp. rewrite Ha, Hm. cbn in *.
    destruct (decide (job_promise j = p)) as [<-|Hne].
    { now apply settle_not_pending in Hp. }
    rewrite settle_other in Hp by exact Hne.
    destruct (Hacc p Hp) as [Hf|Hj]; [now left | right].
    rewrite Hq in Hj. apply Exists_cons in Hj as [Hj|Hj]; [contradiction | exact Hj].
  - destruct (awaiting w !! q) as [fr|] eqn:Hfr; [| discriminate].
    injection Hstep as <-. cbn in *.
    destruct (decide (q = p)) as [->|Hne].
    + right. apply Exists_app. right. constructor. reflexivity.
    + destruct (Hacc p Hp) as [Hf|Hj].
      * left. now rewrite lookup_delete_ne.
      * right. apply Exists_app. now left.
  - destruct (awaiting w !! q) as [fr|] eqn:Hfr; [| discriminate].
    injection Hstep as <-. cbn in *.
    destruct (decide (q = p)) as [->|Hne].
    + right. apply Exists_app. right. constructor. reflexivity.
    + destruct (Hacc p Hp) as [Hf|Hj].
      * left. now rewrite lookup_delete_ne.
      * right. apply Exists_app. now left.
Qed.

(** X3: no caller is left waiting by an idle worker.  In any state
    reached from a fresh source, once the reaction queue is empty and no
    [loadGeoJSON] is waiting on the transport, every promise that
    [loadData] has returned is settled. *)
Theorem idle_worker_has_settled_all (evs : list Event) (w : World) (p : nat) :
  run evs init = Some w ->
  microtasks w = [] ->
  awaiting w = ∅ ->
  p < length (promises w) ->
  exists s, outcome w p = Some s.
Proof.
  intros Hrun Hq Ha Hlt.
  assert (Hacc : accounted w).
  { eapply (run_invariant accounted); [apply step_accounted | exact Hrun |].
    intros q Hq'. unfold pending in Hq'. cbn in Hq'. now rewrite lookup_nil in Hq'. }
  destruct (lookup_lt_is_Some_2 (promises w) p Hlt) as [[s|] E].
  - exists s. now apply outcome_settled.
  - exfalso. destruct (Hacc p E) as [Hf|Hj].
    + rewrite Ha, lookup_empty in Hf. now destruct Hf.
    + rewrite Hq in Hj. now apply Exists_nil in Hj.
Qed.

End LoopInvariants.

(** ** Tokens, promises and the index along a run *)

Section TokenFacts.
Context `{Collaborators}.

Lemma step_live_token (ev : Event) (w w' : World) :
  step ev w = Some w' -> live_token w -> live_token w'.
Proof.
  intros Hstep Hlive c Hc.
  destruct ev as [params| | |q data|q err]; cbn in Hstep.
  - injection Hstep as <-. unfold loadData in *.
    destruct (start_load_registers params (abandon_pending w)) as [_ Hreg].
    rewrite Hreg in Hc. injection Hc as <-.
    rewrite start_load_controllers. now rewrite list_lookup_middle.
  - injection Hstep as <-. unfold removeSource in *.
    destruct (_pendingPromise (this w)); now apply Hlive.
  - destruct (microtasks w) as [|[params perf p data|p err] rest]; [discriminate | |];
      injection Hstep as <-; cbn [run_job] in *.
    + match type of Hc with context [on_data ?a ?b ?c ?d ?e] =>
        destruct (on_data_clears_pending a b c d e) as [_ Hnone] end.
      congruence.
    + now apply Hlive.
  - destruct (awaiting w !! q); [| discriminate]. injection Hstep as <-. now apply Hlive.
  - destruct (awaiting w !! q); [| discriminate]. injection Hstep as <-. now apply Hlive.
Qed.

(** X4: in every state reached from a fresh source the two bookkeeping
    fields name the same call or are both unset, that call's promise and
    controller exist, and the registered controller has not been aborted:
    the only abort in the file hits a controller that is replaced in the
    same call. *)
Theorem registered_token_is_live (evs : list Event) (w : World) :
  run evs init = Some w ->
  (forall p, _pendingPromise (this w) = Some p <-> _pendingRequest (this w) = Some p)
  /\ (forall c, _pendingRequest (this w) = Some c ->
      c < length (promises w) /\ controllers w !! c = Some false).
Proof.
  intros Hrun.
  destruct (reachable_registered_together evs w Hrun) as [Hlen Hfields].
  assert (Hlive : live_token w).
  { eapply (run_invariant live_token); [apply step_live_token | exact Hrun |].
    intros c Hc. discriminate Hc. }
  split.
  - intros p. destruct (_pendingPromise (this w)) as [p0|];
      destruct (_pendingRequest (this w)) as [c0|]; try contradiction.
    + destruct Hfields as [-> _]. tauto.
    + split; discriminate.
  - intros c Hc. split; [| now apply Hlive].
    rewrite Hc in Hfields. destruct (_pendingPromise (this w)); [| contradiction].
    destruct Hfields as [_ Hlt]. lia.
Qed.

Lemma abandon_pending_aborts (w : World) :
  controllers (abandon_pending w)
  = match _pendingRequest (this w) with
    | Some c => <[c := true]> (controllers w)
    | None => controllers w
    end.
Proof.
  unfold abandon_pending.
  destruct (_pendingRequest (this w)); cbn [this abort];
    destruct (_pendingPromise (this w)); reflexivity.
Qed.

Lemma step_aborted_settled (ev : Event) (w w' : World) :
  step ev w = Some w' -> registered_together w -> aborted_settled w -> aborted_settled w'.
Proof.
  intros Hstep [Hlen Hfields] Hset c Hc.
  destruct ev as [params| | |q data|q err]; cbn in Hstep.
  - injection Hstep as <-. unfold loadData in *.
    rewrite start_load_controllers in Hc. rewrite start_load_promises.
    assert (Hlt : c < length (controllers (abandon_pending w))).
    { destruct (decide (c < length (controllers (abandon_pending w)))) as [|Hge]; [assumption |].
      exfalso.
      assert (c = length (controllers (abandon_pending w))) as ->.
      { apply lookup_lt_Some in Hc. rewrite length_app in Hc. cbn in Hc. lia. }
      rewrite list_lookup_middle in Hc by reflexivity. discriminate. }
    rewrite lookup_app_l in Hc by exact Hlt.
    assert (Hold : exists s, promises (abandon_pending w) !! c = Some (Some s)).
    { rewrite abandon_pending_promises. revert Hc. rewrite abandon_pending_aborts.
      destruct (_pendingPromise (this w)) as [p0|];
        destruct (_pendingRequest (this w)) as [c0|]; try contradiction.
      - destruct Hfields as [-> Hc0]. intros Hc.
        destruct (decide (c0 = c)) as [->|Hne].
        + apply settle_allocated. lia.
        + rewrite list_lookup_insert_ne in Hc by exact Hne.
          destruct (Hset c Hc) as [s Hs]. exists s. now apply settle_keeps.
      - intros Hc. now apply Hset. }
    destruct Hold as [s Hs]. exists s. now apply lookup_app_l_Some.
  - injection Hstep as <-. unfold removeSource in *.
    destruct (_pendingPromise (this w)) as [p0|]; [| now apply Hset].
    cbn in *. destruct (Hset c Hc) as [s Hs]. exists s. now apply settle_keeps.
  - destruct (microtasks w) as [|j rest]; [discriminate |]. injection Hstep as <-.
    destruct (run_job_promises j (mkWorld (this w) (promises w) (controllers w)
                                          (awaiting w) rest (history w))) as [s0 Hs0].
    rewrite Hs0. cbn.
    assert (Hc' : controllers w !! c = Some true).
    { destruct j as [params perf p data|p err]; cbn [run_job] in Hc.
      - now rewrite on_data_controllers in Hc.
      - exact Hc. }
    destruct (Hset c Hc') as [s Hs]. exists s. now apply settle_keeps.
  - destruct (awaiting w !! q); [| discriminate]. injection Hstep as <-. now apply Hset.
  - destruct (awaiting w !! q); [| discriminate]. injection Hstep as <-. now apply Hset.
Qed.

(** X5: a load whose controller has been aborted is never left
    unsettled.  In every state reached from a fresh source, the promise
    made together with an aborted controller is settled. *)
Theorem aborted_load_is_settled (evs : list Event) (w : World) (c : nat) :
  run evs init = Some w ->
  controllers w !! c = Some true ->
  exists s, outcome w c = Some s.
Proof.
  intros Hrun Hc.
  assert (Hinv : registered_together w /\ aborted_settled w).
  { eapply (run_invariant (fun w => registered_together w /\ aborted_settled w));
      [| exact Hrun |].
    - intros ev w0 w1 Hstep [Hr Ha]. split.
      + eapply step_registered_together; eassumption.
      + eapply step_aborted_settled; eassumption.
    - split; [split; [reflexivity | exact I] |].
      intros c0 Hc0. cbn in Hc0. now rewrite lookup_nil in Hc0. }
  destruct (proj2 Hinv c Hc) as [s Hs]. exists s. now apply outcome_settled.
Qed.

End TokenFacts.

(** ** When there is an index *)

Section IndexFacts.
Context `{SuperclusterMethods}.

Lemma loadData_keeps_index (params : LoadGeoJSONParameters) (w : World) :
  _geoJSONIndex (this (loadData params w).2) = _geoJSONIndex (this w)
  /\ loaded (this (loadData params w).2) = loaded (this w).
Proof.
  unfold loadData, start_load. cbn [this _dataUpdateable].
  rewrite abandon_pending_this.
  destruct (loadGeoJSON params (_dataUpdateable (this w))) as [r|c store];
    split; reflexivity.
Qed.

Lemma abandon_pending_history (w : World) (x : Call) :
  x ∈ history w -> x ∈ history (abandon_pending w).
Proof.
  intros Hx. unfold abandon_pending.
  destruct (_pendingRequest (this w)); cbn;
    destruct (_pendingPromise (this w)); cbn;
    rewrite ?elem_of_app; auto.
Qed.

Lemma step_index_accounted (ev : Event) (w w' : World) :
  step ev w = Some w' -> index_accounted w -> index_accounted w'.
Proof.
  intros Hstep Hacc Hidx.
  destruct ev as [params| | |q data|q err]; cbn in Hstep.
  - injection Hstep as <-.
    rewrite (proj1 (loadData_keeps_index params w)) in Hidx.
    destruct (Hacc Hidx) as (p & r & Hin). exists p, r.
    unfold loadData. rewrite start_load_history, elem_of_app. left.
    now apply abandon_pending_history.
  - injection Hstep as <-. unfold removeSource in *.
    destruct (_pendingPromise (this w)) as [p0|]; [| now apply Hacc].
    cbn in *. destruct (Hacc Hidx) as (p & r & Hin). exists p, r.
    rewrite elem_of_app. now left.
  - destruct (microtasks w) as [|[params perf p data|p err] rest]; [discriminate | |];
      injection Hstep as <-; cbn [run_job] in *.
    + match type of Hidx with context [on_data ?a ?b ?c ?d ?e] =>
        destruct (on_data_cases a b c d e) as [[e0 E]|(idx & _ & _ & _ & E)];
        rewrite E in *; clear E end.
      * cbn in *. destruct (Hacc Hidx) as (p0 & r & Hin). exists p0, r.
        rewrite elem_of_app. now left.
      * eexists p, _. cbn. rewrite elem_of_app. right. apply list_elem_of_here.
    + cbn in *. destruct (Hacc Hidx) as (p0 & r & Hin). exists p0, r.
      rewrite elem_of_app. now left.
  - destruct (awaiting w !! q); [| discriminate]. injection Hstep as <-. now apply Hacc.
  - destruct (awaiting w !! q); [| discriminate]. injection Hstep as <-. now apply Hacc.
Qed.

Lemma reachable_index_accounted (evs : list Event) (w : World) :
  run evs init = Some w -> index_accounted w.
Proof.
  intros Hrun.
  eapply (run_invariant index_accounted); [apply step_index_accounted | exact Hrun |].
  intros [idx Hidx]. discriminate Hidx.
Qed.

(** X6: an index is put in place only by a reaction that goes on to
    resolve its promise with a result.  So on a source reached from a
    fresh one, as long as no callback has been called with a result,
    there is no index and every tile request returns nothing, whatever
    loads were started, abandoned or rejected. *)
Theorem no_tiles_before_first_result (evs : list Event) (w : World) :
  run evs init = Some w ->
  (forall idx, _geoJSONIndex (this w) = Some idx ->
     exists p r, Resolve p (completed r) ∈ history w)
  /\ ((forall p r, Resolve p (completed r) ∉ history w) ->
      _geoJSONIndex (this w) = None
      /\ forall canonical, loadGeoJSONTile (_geoJSONIndex (this w)) canonical = Return None).
Proof.
  intros Hrun. pose proof (reachable_index_accounted evs w Hrun) as Hacc.
  split.
  - intros idx Hidx. apply Hacc. rewrite Hidx. eauto.
  - intros Hnone.
    assert (Hn : _geoJSONIndex (this w) = None).
    { destruct (_geoJSONIndex (this w)) as [idx|] eqn:Hidx; [| reflexivity].
      destruct Hacc as (p & r & Hin); [eauto |]. now apply Hnone in Hin. }
    split; [exact Hn |]. intros canonical. now rewrite Hn.
Qed.

(** X7: the three cluster queries throw a TypeError for as long as no
    reaction has called its [resolve] callback with a result, whether or
    not that promise was still unsettled, since until then there is no
    index to call; with an index each returns what the index's method
    returns. *)
Theorem cluster_queries_need_an_index (evs : list Event) (w : World) :
  run evs init = Some w ->
  ((forall p r, Resolve p (completed r) ∉ history w) ->
   forall clusterId limit offset,
     getClusterExpansionZoom (this w) clusterId = no_index
     /\ getClusterChildren (this w) clusterId = no_index
     /\ getClusterLeaves (this w) clusterId limit offset = no_index)
  /\ (forall idx, _geoJSONIndex (this w) = Some idx ->
      forall clusterId limit offset,
        getClusterExpansionZoom (this w) clusterId
        = index_getClusterExpansionZoom idx clusterId
        /\ getClusterChildren (this w) clusterId = index_getChildren idx clusterId
        /\ getClusterLeaves (this w) clusterId limit offset
           = index_getLeaves idx clusterId limit offset).
Proof.
  intros Hrun. pose proof (reachable_index_accounted evs w Hrun) as Hacc.
  split.
  - intros Hnone clusterId limit offset.
    assert (Hn : _geoJSONIndex (this w) = None).
    { destruct (_geoJSONIndex (this w)) as [idx|] eqn:Hidx; [| reflexivity].
      destruct Hacc as (p & r & Hin); [eauto |]. now apply Hnone in Hin. }
    unfold getClusterExpansionZoom, getClusterChildren, getClusterLeaves.
    rewrite Hn. auto.
  - intros idx Hidx clusterId limit offset.
    unfold getClusterExpansionZoom, getClusterChildren, getClusterLeaves.
    rewrite Hidx. auto.
Qed.

(** X8: after the reaction to a load's data, either the load has
    succeeded and every tile, whatever its uid, is loaded afresh by
    [reloadTile], or the load was rejected and [reloadTile] routes every
    tile as it did before.  The synchronous part of [loadData] and
    [removeSource] do not change the routing either. *)
Theorem reload_route_after_load (params : LoadGeoJSONParameters)
        (perf : option RequestParameters) (p : nat) (data : JSValue) (w : World) :
  let w' := on_data params perf p data w in
  ((exists idx, filter_and_index params (rewind data) = Return idx
                /\ _geoJSONIndex (this w') = Some idx
                /\ forall uid, reloadTile (this w') uid = LoadTile)
   \/ (exists e, promises w' = settle p (Rejected e) (promises w)
                 /\ forall uid, reloadTile (this w') uid = reloadTile (this w) uid))
  /\ (forall uid, reloadTile (this (loadData params w).2) uid = reloadTile (this w) uid)
  /\ (forall uid, reloadTile (this (removeSource w)) uid = reloadTile (this w) uid).
Proof.
  intros w'. subst w'. split; [| split].
  - destruct (on_data_cases params perf p data w) as [[e ->]|(idx & _ & _ & Hfi & ->)].
    + right. exists e. split; reflexivity.
    + left. exists idx. split; [exact Hfi | split; reflexivity].
  - intros uid. unfold reloadTile. now rewrite (proj2 (loadData_keeps_index params w)).
  - intros uid. unfold removeSource. destruct (_pendingPromise (this w)); reflexivity.
Qed.

End IndexFacts.

(** ** Whole loads *)

Section WholeLoads.
Context `{Collaborators}.

(** The state [loadData] returns in, when [loadGeoJSON] completed at
    once and when it is waiting for the transport. *)
Lemma loadData_done_eq (params : LoadGeoJSONParameters) (w : World)
      (c : Completion JSValue) (store' : option Store) :
  loadGeoJSON params (_dataUpdateable (this w)) = Done c store' ->
  (loadData params w).2
  = mkWorld (mkSource (Some (length (promises w))) (Some (length (controllers w)))
                      (_geoJSONIndex (this w)) store' (loaded (this w)))
            (promises (abandon_pending w) ++ [None])
            (controllers (abandon_pending w) ++ [false])
            (awaiting w)
            (microtasks w ++ [reaction params (length (promises w)) c])
            (history (abandon_pending w)
               ++ [Register (length (promises w)) (length (controllers w))]).
Proof.
  intros E. unfold loadData, start_load. cbn [this _dataUpdateable].
  rewrite abandon_pending_this, E, abandon_pending_length, abandon_pending_controllers.
  cbn. now rewrite abandon_pending_microtasks, abandon_pending_awaiting.
Qed.

Lemma loadData_await_eq (params : LoadGeoJSONParameters) (w : World) (r : RequestParameters) :
  request params = Some r ->
  (loadData params w).2
  = mkWorld (mkSource (Some (length (promises w))) (Some (length (controllers w)))
                      (_geoJSONIndex (this w)) (_dataUpdateable (this w)) (loaded (this w)))
            (promises (abandon_pending w) ++ [None])
            (controllers (abandon_pending w) ++ [false])
            (<[length (promises w) :=
                 mkFrame params (start_perf params) (length (controllers w))]> (awaiting w))
            (microtasks w)
            (history (abandon_pending w)
               ++ [Register (length (promises w)) (length (controllers w))]).
Proof.
  intros E. unfold loadData, start_load. cbn [this _dataUpdateable].
  assert (El : loadGeoJSON params (_dataUpdateable (this (abandon_pending w))) = Await r).
  { unfold loadGeoJSON. now rewrite E. }
  rewrite El, abandon_pending_this, abandon_pending_length, abandon_pending_controllers.
  cbn. now rewrite abandon_pending_microtasks, abandon_pending_awaiting.
Qed.

(** The promise [loadData] has just made is unsettled. *)
Lemma fresh_promise_pending (w : World) (s : GeoJSONWorkerSource) cs fs js hs :
  pending (mkWorld s (promises (abandon_pending w) ++ [None]) cs fs js hs)
          (length (promises w)).
Proof.
  unfold pending. cbn. rewrite <- (abandon_pending_length w).
  now apply list_lookup_middle.
Qed.

(** X9: a load that nothing interrupts runs to the end.  When the data
    [loadGeoJSON] obtains is a truthy object from which the index can be
    built, then after the call and its reaction (with the transport's
    answer in between on the request path) the index is the one built
    from that data, the promise returned by the call is fulfilled with
    the result, both pending fields are cleared, [loaded] is empty and
    no reaction is left in the queue. *)
Theorem uninterrupted_load_completes (params : LoadGeoJSONParameters) (w : World)
        (data : JSValue) (idx : Index) :
  microtasks w = [] ->
  JS.truthy data = true ->
  JS.typeof data = "object" ->
  filter_and_index params (rewind data) = Return idx ->
  let p := length (promises w) in
  let done (w' : World) :=
    _geoJSONIndex (this w') = Some idx
    /\ outcome w' p
       = Some (Fulfilled (completed (timing_result params (start_perf params))))
    /\ _pendingPromise (this w') = None
    /\ _pendingRequest (this w') = None
    /\ loaded (this w') = []
    /\ microtasks w' = [] in
  (forall store',
      loadGeoJSON params (_dataUpdateable (this w)) = Done (Return data) store' ->
      exists w', run [CallLoadData params; RunMicrotask] w = Some w' /\ done w')
  /\ (forall r,
         request params = Some r ->
         exists w',
           run [CallLoadData params; Responds p data; RunMicrotask] w = Some w'
           /\ done w').
Proof.
  intros Hq Ht Hty Hfi p done. split.
  - intros store' E. cbn [run step].
    rewrite (loadData_done_eq params w _ store' E), Hq. cbn [app microtasks reaction run_job].
    rewrite on_data_proceeds by assumption. rewrite Hfi.
    eexists. split; [reflexivity |]. unfold done.
    split; [reflexivity | split; [| repeat split]].
    apply outcome_resolve. apply fresh_promise_pending.
  - intros r E. cbn [run step].
    rewrite (loadData_await_eq params w r E). cbn [awaiting].
    rewrite lookup_insert_eq. cbn [loadGeoJSON_resume frame_params frame_perf].
    cbn [enqueue with_this drop_frame microtasks this promises controllers awaiting history].
    rewrite Hq. cbn [app run_job].
    rewrite on_data_proceeds by assumption. rewrite Hfi.
    eexists. split; [reflexivity |]. unfold done.
    split; [reflexivity | split; [| repeat split]].
    apply outcome_resolve. apply fresh_promise_pending.
Qed.

(** X10: [removeSource] settles the pending promise and does nothing
    else: the source's fields, the controllers, the waiting loads and the
    queue are as before, and a second call settles nothing more.  In
    particular it does not cancel the load: when the transport then
    answers, the reaction builds and installs the index, while the
    caller's promise stays fulfilled with [{abandoned: true}]. *)
Theorem removeSource_does_not_cancel (w : World) (p : nat) (fr : Frame)
        (data : JSValue) (idx : Index) :
  _pendingPromise (this w) = Some p ->
  pending w p ->
  awaiting w !! p = Some fr ->
  microtasks w = [] ->
  JS.truthy data = true ->
  JS.typeof data = "object" ->
  filter_and_index (frame_params fr) (rewind data) = Return idx ->
  (this (removeSource w) = this w
   /\ controllers (removeSource w) = controllers w
   /\ awaiting (removeSource w) = awaiting w
   /\ microtasks (removeSource w) = microtasks w
   /\ promises (removeSource (removeSource w)) = promises (removeSource w))
  /\ exists w',
      run [CallRemoveSource; Responds p data; RunMicrotask] w = Some w'
      /\ _geoJSONIndex (this w') = Some idx
      /\ outcome w' p = Some (Fulfilled abandoned).
Proof.
  intros Hp Hpend Hfr Hq Ht Hty Hfi.
  assert (Er : removeSource w = resolve p abandoned w).
  { unfold removeSource. now rewrite Hp. }
  split.
  - rewrite Er. split; [reflexivity | split; [reflexivity | split; [reflexivity |]]].
    split; [reflexivity |].
    unfold removeSource. cbn [this resolve]. rewrite Hp. cbn [promises resolve].
    apply (settle_settled _ _ (Fulfilled abandoned)). now apply settle_pending.
  - cbn [run step]. rewrite Er. cbn [awaiting resolve]. rewrite Hfr.
    cbn [loadGeoJSON_resume].
    cbn [enqueue with_this drop_frame resolve
         microtasks this promises controllers awaiting history].
    rewrite Hq. cbn [app run_job].
    rewrite on_data_proceeds by assumption. rewrite Hfi.
    eexists. split; [reflexivity | split; [reflexivity |]].
    apply outcome_settled. cbn. apply settle_keeps. now apply settle_pending.
Qed.

End WholeLoads.

(** ** More on the cluster callbacks, the timing result and the filter *)

Section CallbackFacts.
Context `{Collaborators}.

Lemma lookup_set_field (fs : list (string * JSValue)) (k k' : string) (v : JSValue) :
  JS.lookup_field (JS.set_field fs k v) k'
  = if String.eqb k k' then Some v else JS.lookup_field fs k'.
Proof.
  induction fs as [|[k0 v0] fs IH]; cbn.
  - reflexivity.
  - destruct (String.eqb_spec k0 k) as [->|Hne]; cbn.
    + destruct (String.eqb_spec k k'); reflexivity.
    + rewrite IH. destruct (String.eqb_spec k0 k') as [->|Hne'].
      * destruct (String.eqb_spec k k'); [congruence | reflexivity].
      * reflexivity.
Qed.

(** Whatever the tables hold, the reduce loop writes only at its names,
    removes nothing and leaves the zoom and the feature alone. *)
Lemma reduce_loop_frame (names : list string) (table : gmap string (CompileResult Compiled))
      (acc : list (string * JSValue)) (env : ClosureEnv) :
  let out := reduce_loop names table acc env in
  (forall k, k ∉ names -> JS.lookup_field out.1.2 k = JS.lookup_field acc k)
  /\ (forall k, is_Some (JS.lookup_field acc k) -> is_Some (JS.lookup_field out.1.2 k))
  /\ zoom (globals out.2) = zoom (globals env)
  /\ feature_properties out.2 = feature_properties env.
Proof.
  revert acc env. induction names as [|key names IH]; intros acc env; cbn [reduce_loop].
  - cbn. auto.
  - destruct (evaluate_slot _ _ _) as [v|e].
    + match goal with |- context [reduce_loop names table ?a ?e0] =>
        destruct (IH a e0) as (Ho & Hk & Hz & Hp) end.
      cbn zeta. split; [| split; [| split]].
      * intros k Hk'. apply not_elem_of_cons in Hk' as [Hne Hk'].
        rewrite (Ho k Hk'), lookup_set_field.
        destruct (String.eqb_spec key k); [congruence | reflexivity].
      * intros k Hs. apply Hk. rewrite lookup_set_field.
        destruct (String.eqb key k); eauto.
      * exact Hz.
      * exact Hp.
    + cbn. auto.
Qed.

(** X11: the callbacks write only where they should.  The map callback
    changes nothing in the shared context but the feature's properties.
    The reduce callback, whether its expressions evaluate or throw,
    changes the accumulated properties only at the output names, removes
    none, and leaves the zoom of the context as it was. *)
Theorem callbacks_write_only_outputs (params : LoadGeoJSONParameters)
        (cp : ClusterProperties) (options : SuperclusterOptions ClusterSettings) :
  clusterProperties params = Some cp ->
  superclusterOptions params = Some options ->
  exists map_installed reduce_installed,
    getSuperclusterOptions params
    = Some (mkSuperclusterOptions (passthrough options)
                                  (Some map_installed) (Some reduce_installed))
    /\ (forall pointProperties env,
           (map_installed pointProperties env).2 = mkEnv (globals env) pointProperties)
    /\ (forall accumulatedProperties incomingProperties env,
           let out := reduce_installed accumulatedProperties incomingProperties env in
           (forall k, k ∉ cp.*1 ->
              JS.lookup_field out.1.2 k = JS.lookup_field accumulatedProperties k)
           /\ (forall k, is_Some (JS.lookup_field accumulatedProperties k) ->
                 is_Some (JS.lookup_field out.1.2 k))
           /\ zoom (globals out.2) = zoom (globals env)
           /\ feature_properties out.2 = incomingProperties).
Proof.
  intros Hcp Hopt. eexists _, _. split; [| split].
  - unfold getSuperclusterOptions. rewrite Hcp, Hopt. reflexivity.
  - reflexivity.
  - intros acc incoming env. unfold reduce_callback.
    apply (reduce_loop_frame cp.*1 _ acc (mkEnv (globals env) incoming)).
Qed.

Lemma tables_cover_names (cp : ClusterProperties) (name : string) :
  NoDup cp.*1 -> name ∈ cp.*1 ->
  is_Some ((expression_tables cp).1 !! name) /\ is_Some ((expression_tables cp).2 !! name).
Proof.
  intros Hnd Hin. apply list_elem_of_fmap in Hin as ([k [op me]] & -> & Hin).
  destruct (expression_tables_lookup cp k op me Hnd Hin) as [E1 E2].
  cbn. rewrite E1, E2. eauto.
Qed.

Lemma map_loop_throws (names : list string) (table : gmap string (CompileResult Compiled))
      (env : ClosureEnv) (properties : list (string * JSValue)) (bad : string) errs :
  (forall n, n ∈ names -> is_Some (table !! n)) ->
  bad ∈ names -> table !! bad = Some (Failure errs) ->
  map_loop names table env properties = Throw not_a_function.
Proof.
  revert properties. induction names as [|key names IH]; intros properties Hall Hin Hbad.
  - now apply elem_of_nil in Hin.
  - cbn [map_loop].
    destruct (Hall key (list_elem_of_here _ _)) as [[c|errs'] Hkey]; rewrite Hkey; cbn.
    + apply IH; [| | exact Hbad].
      * intros n Hn. apply Hall. now apply list_elem_of_further.
      * apply elem_of_cons in Hin as [->|Hin]; [congruence | exact Hin].
    + reflexivity.
Qed.

Lemma reduce_loop_throws (names : list string) (table : gmap string (CompileResult Compiled))
      (acc : list (string * JSValue)) (env : ClosureEnv) (bad : string) errs :
  (forall n, n ∈ names -> is_Some (table !! n)) ->
  bad ∈ names -> table !! bad = Some (Failure errs) ->
  (reduce_loop names table acc env).1.1 = Throw not_a_function.
Proof.
  revert acc env. induction names as [|key names IH]; intros acc env Hall Hin Hbad.
  - now apply elem_of_nil in Hin.
  - cbn [reduce_loop].
    destruct (Hall key (list_elem_of_here _ _)) as [[c|errs'] Hkey]; rewrite Hkey; cbn.
    + apply IH; [| | exact Hbad].
      * intros n Hn. apply Hall. now apply list_elem_of_further.
      * apply elem_of_cons in Hin as [->|Hin]; [congruence | exact Hin].
    + reflexivity.
Qed.

(** X12: compilation results are not checked when the callbacks are set
    up.  If the map expression of some output name does not compile, the
    options are returned all the same and the map callback throws a
    TypeError on every point; likewise the reduce callback when a reduce
    expression does not compile. *)
Theorem uncompiled_expression_throws (params : LoadGeoJSONParameters)
        (cp : ClusterProperties) (options : SuperclusterOptions ClusterSettings)
        (bad : string) (operator mapExpression : JSValue) :
  clusterProperties params = Some cp ->
  superclusterOptions params = Some options ->
  NoDup cp.*1 ->
  (bad, (operator, mapExpression)) ∈ cp ->
  exists map_installed reduce_installed,
    getSuperclusterOptions params
    = Some (mkSuperclusterOptions (passthrough options)
                                  (Some map_installed) (Some reduce_installed))
    /\ (forall errs,
           createExpression mapExpression None = Failure errs ->
           forall pointProperties env,
             (map_installed pointProperties env).1 = Throw not_a_function)
    /\ (forall errs,
           createExpression (reduce_expression bad operator) None = Failure errs ->
           forall accumulatedProperties incomingProperties env,
             (reduce_installed accumulatedProperties incomingProperties env).1.1
             = Throw not_a_function).
Proof.
  intros Hcp Hopt Hnd Hin.
  destruct (expression_tables_lookup cp bad operator mapExpression Hnd Hin) as [E1 E2].
  assert (Hbad : bad ∈ cp.*1).
  { apply list_elem_of_fmap. exists (bad, (operator, mapExpression)). auto. }
  eexists _, _. split; [| split].
  - unfold getSuperclusterOptions. rewrite Hcp, Hopt. reflexivity.
  - intros errs Hc pointProperties env. unfold map_callback. cbn [fst].
    apply (map_loop_throws _ _ _ _ bad errs); [| exact Hbad | now rewrite E1, Hc].
    intros n Hn. now apply tables_cover_names.
  - intros errs Hc acc incoming env. unfold reduce_callback.
    apply (reduce_loop_throws _ _ _ _ bad errs); [| exact Hbad | now rewrite E2, Hc].
    intros n Hn. now apply tables_cover_names.
Qed.

(** X13: the result of a load carries resource timing exactly when the
    load has a request that asks for it and the performance probe has
    data; the entry is filed under the source's name.  Loads of literal
    data and diffs never carry it. *)
Theorem timing_only_when_requested (params : LoadGeoJSONParameters)
        (k : string) (v : JSValue) :
  timing_result params (start_perf params) = Some (k, v)
  <-> exists r, request params = Some r /\ collectResourceTiming r = true
                /\ finish r = Some v /\ k = JS.interpolate (source params).
Proof.
  unfold timing_result, start_perf. split.
  - destruct (request params) as [r|]; [| discriminate].
    destruct (collectResourceTiming r) eqn:Hc; [| discriminate].
    destruct (finish r) as [d|] eqn:Hf; [| discriminate].
    intros E. injection E as <- <-. exists r. auto.
  - intros (r & -> & -> & -> & ->). reflexivity.
Qed.

(** X14: with a filter that compiles, data that is an object but has no
    [features] array is rejected with a TypeError, and the index in place
    stays. *)
Theorem filter_needs_features (params : LoadGeoJSONParameters)
        (perf : option RequestParameters) (p : nat) (data : JSValue) (w : World)
        (f : list JSValue) (compiled : Compiled) :
  filter params = Some f ->
  createExpression (JArr f) (Some filter_spec) = Success compiled ->
  pending w p ->
  JS.truthy data = true ->
  JS.typeof data = "object" ->
  features_of (rewind data) = None ->
  exists e, name e = "TypeError"
            /\ outcome (on_data params perf p data w) p = Some (Rejected e)
            /\ _geoJSONIndex (this (on_data params perf p data w)) = _geoJSONIndex (this w).
Proof.
  intros Hf Hc Hp Ht Hty Hfs.
  rewrite (on_data_proceeds params perf p data w Ht Hty).
  unfold filter_and_index, apply_filter. rewrite Hf, Hc, Hfs.
  eexists. split; [| split; [now apply outcome_reject | reflexivity]]. reflexivity.
Qed.

End CallbackFacts.

(** ** Failed loads and the bytes handed over *)

Section FailureFacts.
Context `{Collaborators}.

Lemma loadGeoJSON_throw_keeps_store (params : LoadGeoJSONParameters) (store store' : option Store)
      (e : JSError) :
  loadGeoJSON params store = Done (Throw e) store' -> store' = store.
Proof.
  unfold loadGeoJSON, diff_or_fail.
  destruct (request params); [discriminate |].
  destruct (data params) as [[| | | | |text| |]|];
    try (destruct (dataDiff params); [destruct store |]; intros E; congruence).
  destruct (JSON_parse text); intros E; congruence.
Qed.

(** X15: a load that fails before any data is obtained changes nothing
    but its promise.  When [loadGeoJSON] throws (malformed text, no
    input, a diff without a store) or the transport fails, the promise
    returned by the call is rejected with that very error once the
    reaction has run, and the index, the store and [loaded] are as they
    were before the call. *)
Theorem failed_load_changes_nothing (params : LoadGeoJSONParameters) (w : World)
        (e : JSError) :
  microtasks w = [] ->
  let p := length (promises w) in
  let untouched (w' : World) :=
    outcome w' p = Some (Rejected e)
    /\ _geoJSONIndex (this w') = _geoJSONIndex (this w)
    /\ _dataUpdateable (this w') = _dataUpdateable (this w)
    /\ loaded (this w') = loaded (this w) in
  (forall store',
      loadGeoJSON params (_dataUpdateable (this w)) = Done (Throw e) store' ->
      exists w', run [CallLoadData params; RunMicrotask] w = Some w' /\ untouched w')
  /\ (forall r,
         request params = Some r ->
         exists w', run [CallLoadData params; Fails p e; RunMicrotask] w = Some w'
                    /\ untouched w').
Proof.
  intros Hq p untouched. split.
  - intros store' E. pose proof (loadGeoJSON_throw_keeps_store _ _ _ _ E) as ->.
    cbn [run step].
    rewrite (loadData_done_eq params w _ _ E), Hq. cbn [app microtasks reaction run_job].
    eexists. split; [reflexivity |]. unfold untouched.
    split; [| repeat split].
    apply outcome_reject. apply fresh_promise_pending.
  - intros r E. cbn [run step].
    rewrite (loadData_await_eq params w r E). cbn [awaiting].
    rewrite lookup_insert_eq.
    cbn [enqueue drop_frame microtasks this promises controllers awaiting history].
    rewrite Hq. cbn [app run_job].
    eexists. split; [reflexivity |]. unfold untouched.
    split; [| repeat split].
    apply outcome_reject. apply fresh_promise_pending.
Qed.

(** X16: the view handed to the receiver always shows the encoder's
    bytes and nothing else.  A view that is already tight is passed on as
    it is, without a copy; tightening twice is tightening once; and the
    buffer handed over is exactly as long as the encoder's view. *)
Theorem tighten_faithful (pbf : Uint8Array) :
  view_bytes (tighten pbf) = view_bytes pbf
  /\ length (buffer (tighten pbf)) = byteLength pbf
  /\ tighten (tighten pbf) = tighten pbf
  /\ (byteOffset pbf = 0 -> byteLength pbf = length (buffer pbf) -> tighten pbf = pbf).
Proof.
  destruct (tighten_tight pbf) as (Ho & Hl & Hb).
  assert (Hid : forall a, byteOffset a = 0 -> byteLength a = length (buffer a) ->
                          tighten a = a).
  { intros a Ha Hla. unfold tighten. rewrite Ha, Hla, !Nat.eqb_refl. reflexivity. }
  split; [| split; [| split]].
  - rewrite (view_bytes_whole (tighten pbf) Ho Hl). exact Hb.
  - rewrite Hb. apply view_bytes_length.
  - now apply Hid.
  - apply Hid.
Qed.

End FailureFacts.

(** ** The further properties on the sample collaborators *)

Section ExtraRuns.
#[local] Existing Instance Sample.collaborators.
#[local] Existing Instance Sample.methods.

Lemma reaction_settles_promise_witness :
  let w := (loadData (Sample.with_request "/a.json") init).2 in
  let j := OnError 0 (mkError "AbortError" "The operation was aborted.") in
  exists s, outcome (run_job j w) 0 = Some s /\ s <> Fulfilled abandoned.
Proof.
  intros w j.
  exact (proj1 (proj2 (reaction_settles_promise j w ltac:(cbn; lia))) eq_refl).
Defined.

Lemma idle_worker_has_settled_all_witness :
  let evs := [CallLoadData (Sample.with_request "/a.json");
              CallLoadData (Sample.with_data "not json");
              Responds 0 (FeatureCollection []); RunMicrotask; RunMicrotask] in
  let w := default init (run evs init) in
  (exists s, outcome w 0 = Some s) /\ (exists s, outcome w 1 = Some s).
Proof.
  intros evs w. split.
  - apply (idle_worker_has_settled_all evs w 0);
      [vm_compute; reflexivity | vm_compute; reflexivity | vm_compute; reflexivity
      | vm_compute; lia].
  - apply (idle_worker_has_settled_all evs w 1);
      [vm_compute; reflexivity | vm_compute; reflexivity | vm_compute; reflexivity
      | vm_compute; lia].
Defined.

Lemma registered_token_is_live_witness :
  let evs := [CallLoadData (Sample.with_request "/a.json");
              CallLoadData (Sample.with_request "/b.json")] in
  let w := default init (run evs init) in
  _pendingPromise (this w) = Some 1 /\ controllers w !! 1 = Some false.
Proof.
  intros evs w.
  destruct (registered_token_is_live evs w ltac:(vm_compute; reflexivity))
    as [Hboth Hlive].
  split.
  - apply (proj2 (Hboth 1)). vm_compute. reflexivity.
  - apply (Hlive 1). vm_compute. reflexivity.
Defined.

Lemma aborted_load_is_settled_witness :
  let evs := [CallLoadData (Sample.with_request "/a.json");
              CallLoadData (Sample.with_request "/b.json")] in
  let w := default init (run evs init) in
  exists s, outcome w 0 = Some s.
Proof.
  intros evs w.
  apply (aborted_load_is_settled evs w 0); vm_compute; reflexivity.
Defined.

Lemma no_tiles_before_first_result_witness :
  let evs := [CallLoadData (Sample.with_data "not json"); RunMicrotask;
              CallLoadData (Sample.with_request "/a.json"); CallRemoveSource] in
  let w := default init (run evs init) in
  loadGeoJSONTile (_geoJSONIndex (this w)) (mkCanonical 0 0 0) = Return None.
Proof.
  intros evs w.
  apply (proj2 (no_tiles_before_first_result evs w ltac:(vm_compute; reflexivity))).
  intros p r Hin. vm_compute in Hin.
  repeat (apply elem_of_cons in Hin as [Hin|Hin]; [discriminate Hin |]).
  now apply elem_of_nil in Hin.
Defined.

Lemma cluster_queries_need_an_index_witness :
  let evs := [CallLoadData (Sample.with_data "not json"); RunMicrotask] in
  let w := default init (run evs init) in
  getClusterExpansionZoom (this w) 5 = no_index
  /\ getClusterChildren (this w) 5 = no_index
  /\ getClusterLeaves (this w) 5 10 0 = no_index.
Proof.
  intros evs w.
  apply (proj1 (cluster_queries_need_an_index evs w ltac:(vm_compute; reflexivity))).
  intros p r Hin. vm_compute in Hin.
  repeat (apply elem_of_cons in Hin as [Hin|Hin]; [discriminate Hin |]).
  now apply elem_of_nil in Hin.
Defined.

Lemma uninterrupted_load_completes_witness :
  let collection := FeatureCollection [Sample.point 7 "city"] in
  (exists w', run [CallLoadData (Sample.with_data Sample.empty_collection_text);
                   RunMicrotask] init = Some w'
              /\ _geoJSONIndex (this w') = Some (Sample.mkRecorded false (FeatureCollection []))
              /\ outcome w' 0 = Some (Fulfilled (completed None)))
  /\ (exists w', run [CallLoadData (Sample.with_request "/a.json");
                      Responds 0 collection; RunMicrotask] init = Some w'
                 /\ _geoJSONIndex (this w') = Some (Sample.mkRecorded false collection)
                 /\ outcome w' 0 = Some (Fulfilled (completed None))).
Proof.
  intros collection. split.
  - destruct (proj1 (uninterrupted_load_completes
                       (Sample.with_data Sample.empty_collection_text) init
                       (FeatureCollection [])
                       (Sample.mkRecorded false (FeatureCollection []))
                       eq_refl eq_refl eq_refl eq_refl)
                    (Some []) eq_refl)
      as (w' & Hrun & Hidx & Hout & _).
    exists w'. auto.
  - destruct (proj2 (uninterrupted_load_completes
                       (Sample.with_request "/a.json") init collection
                       (Sample.mkRecorded false collection)
                       eq_refl eq_refl eq_refl eq_refl)
                    (mkRequest "/a.json" false) eq_refl)
      as (w' & Hrun & Hidx & Hout & _).
    exists w'. auto.
Defined.

Lemma removeSource_does_not_cancel_witness :
  let collection := FeatureCollection [Sample.point 7 "city"] in
  let w := (loadData (Sample.with_request "/a.json") init).2 in
  exists w', run [CallRemoveSource; Responds 0 collection; RunMicrotask] w = Some w'
             /\ _geoJSONIndex (this w') = Some (Sample.mkRecorded false collection)
             /\ outcome w' 0 = Some (Fulfilled abandoned).
Proof.
  intros collection w.
  exact (proj2 (removeSource_does_not_cancel
                  w 0 (mkFrame (Sample.with_request "/a.json") None 0) collection
                  (Sample.mkRecorded false collection)
                  eq_refl eq_refl eq_refl eq_refl eq_refl eq_refl eq_refl)).
Defined.

Lemma callbacks_write_only_outputs_witness :
  let cp : ClusterProperties := [("count", (JStr "+", JArr [JStr "get"; JStr "count"]))] in
  let params := Sample.clustering (mkSuperclusterOptions tt None None) cp in
  exists map_installed reduce_installed,
    getSuperclusterOptions params
    = Some (mkSuperclusterOptions tt (Some map_installed) (Some reduce_installed))
    /\ JS.lookup_field
         (reduce_installed [("point_count", JNum 2); ("count", JNum 1)]
                           (JObj [("count", JNum 1)]) initial_env).1.2
         "point_count"
       = Some (JNum 2).
Proof.
  intros cp params.
  destruct (callbacks_write_only_outputs params cp (mkSuperclusterOptions tt None None)
                                         eq_refl eq_refl)
    as (map_installed & reduce_installed & Hopts & _ & Hreduce).
  exists map_installed, reduce_installed. split; [exact Hopts |].
  destruct (Hreduce [("point_count", JNum 2); ("count", JNum 1)]
                    (JObj [("count", JNum 1)]) initial_env) as (Hother & _).
  rewrite (Hother "point_count"); [reflexivity |].
  intros Hin. apply list_elem_of_singleton in Hin. discriminate Hin.
Defined.

Lemma uncompiled_expression_throws_witness :
  let cp : ClusterProperties := [("count", (JStr "nope", JArr [JStr "nope"]))] in
  let params := Sample.clustering (mkSuperclusterOptions tt None None) cp in
  exists map_installed reduce_installed,
    getSuperclusterOptions params
    = Some (mkSuperclusterOptions tt (Some map_installed) (Some reduce_installed))
    /\ (map_installed (JObj [("count", JNum 1)]) initial_env).1 = Throw not_a_function
    /\ (reduce_installed [("count", JNum 1)] (JObj [("count", JNum 1)]) initial_env).1.1
       = Throw not_a_function.
Proof.
  intros cp params.
  destruct (uncompiled_expression_throws
              params cp (mkSuperclusterOptions tt None None)
              "count" (JStr "nope") (JArr [JStr "nope"])
              eq_refl eq_refl (NoDup_singleton _) (list_elem_of_here _ _))
    as (map_installed & reduce_installed & Hopts & Hmap & Hreduce).
  exists map_installed, reduce_installed.
  split; [exact Hopts | split].
  - exact (Hmap _ eq_refl _ _).
  - exact (Hreduce _ eq_refl _ _ _).
Defined.

Lemma timing_only_when_requested_witness :
  let params : @LoadGeoJSONParameters Sample.timed :=
    Sample.inputs (Some (mkRequest "/a.json" true)) None None in
  timing_result params (start_perf params) = Some ("s", JArr [JStr "/a.json"]).
Proof.
  intros params.
  apply (proj2 (timing_only_when_requested params "s" (JArr [JStr "/a.json"]))).
  exists (mkRequest "/a.json" true). repeat split.
Defined.

Lemma filter_needs_features_witness :
  let w := (loadData (Sample.with_request "/a.json") init).2 in
  exists e, name e = "TypeError"
            /\ outcome (on_data (Sample.filtered Sample.city_filter) None 0
                                (Sample.point 7 "city") w) 0
               = Some (Rejected e)
            /\ _geoJSONIndex (this (on_data (Sample.filtered Sample.city_filter) None 0
                                            (Sample.point 7 "city") w))
               = None.
Proof.
  intros w.
  exact (filter_needs_features (Sample.filtered Sample.city_filter) None 0
                               (Sample.point 7 "city") w Sample.city_filter
                               (JArr Sample.city_filter)
                               eq_refl eq_refl eq_refl eq_refl eq_refl eq_refl).
Defined.

Lemma failed_load_changes_nothing_witness :
  let aborted := mkError "AbortError" "The operation was aborted." in
  (exists w', run [CallLoadData (Sample.with_data "not json"); RunMicrotask] init = Some w'
              /\ outcome w' 0
                 = Some (Rejected
                           (Error "Input data given to 's' is not a valid GeoJSON object.")))
  /\ (exists w', run [CallLoadData (Sample.with_request "/a.json");
                      Fails 0 aborted; RunMicrotask] init = Some w'
                 /\ outcome w' 0 = Some (Rejected aborted)
                 /\ _dataUpdateable (this w') = Some []).
Proof.
  intros aborted. split.
  - destruct (proj1 (failed_load_changes_nothing
                       (Sample.with_data "not json") init
                       (Error "Input data given to 's' is not a valid GeoJSON object.")
                       eq_refl)
                    (Some []) eq_refl)
      as (w' & Hrun & Hout & _).
    exists w'. auto.
  - destruct (proj2 (failed_load_changes_nothing
                       (Sample.with_request "/a.json") init aborted eq_refl)
                    (mkRequest "/a.json" false) eq_refl)
      as (w' & Hrun & Hout & _ & Hstore & _).
    exists w'. auto.
Defined.

Lemma diff_load_materializes_store_witness :
  let both := FeatureCollection [Sample.point 7 "city"; Sample.point 8 "town"] in
  let anonymous := FeatureCollection [JObj [("type", JStr "Feature")]] in
  let w := (loadData (Sample.with_request "/a.json") init).2 in
  let after ev := default w (step ev w) in
  let diff := Sample.inputs None None (Some [JNum 7]) in
  loadGeoJSON diff (_dataUpdateable (this (after (Responds 0 both))))
  = Done (Return (JObj [("type", JStr "FeatureCollection");
                        ("features", JArr [Sample.point 8 "town"])]))
         (Some [(JNum 8, Sample.point 8 "town")])
  /\ loadGeoJSON diff (_dataUpdateable (this (after (Responds 0 anonymous))))
     = Done (Throw (Error "Cannot update existing geojson data in s")) None.
Proof.
  intros both anonymous w after diff. split.
  - exact (proj1 (proj2 (proj2 (diff_load_materializes_store
                                  diff (after (Responds 0 both)) [JNum 7] eq_refl
                                  ltac:(intros t; cbn; discriminate) eq_refl))
                        [(JNum 7, Sample.point 7 "city"); (JNum 8, Sample.point 8 "town")]
                        ltac:(vm_compute; reflexivity))).
  - exact (proj1 (proj1 (proj2 (diff_load_materializes_store
                                  diff (after (Responds 0 anonymous)) [JNum 7] eq_refl
                                  ltac:(intros t; cbn; discriminate) eq_refl))
                        ltac:(vm_compute; reflexivity))).
Defined.

Lemma tighten_faithful_witness :
  let tight := mkUint8Array [Byte.x01; Byte.x02] 0 2 in
  tighten tight = tight.
Proof.
  intros tight.
  exact (proj2 (proj2 (proj2 (tighten_faithful tight))) eq_refl eq_refl).
Defined.

End ExtraRuns.
